(** * keystone-rxt: the Rackspace credential exchange of [rackspace.py]

    A shallow embedding of [keystone_rxt/rackspace.py] (class
    [RXTv2Credentials] and the two [authenticate] entry points) together
    with the properties stated about it.

    Conventions of the embedding.
    - A Python value that comes from JSON is a [json]; a Python [dict] is
      the association list of [JObj], read and written through [getitem],
      [contains] and [setitem].
    - A Python exception is an [exn]; code that may raise returns a
      [result].  Code that also touches the two cache regions, the
      class-level [rxt_headers] dict or [flask.request.environ] runs in the
      state-and-exception monad [M]: an exception keeps the effects made
      before it was raised, exactly as in Python.
    - What the module imports and does not define (sha224, [json.dumps],
      [dateutil.parser.parse], the upstream endpoint, Keystone's mapped
      plugin) is a field of [Lib] or of [World].
    - Timestamps are integers (the float seconds of [datetime.timestamp]
      are only ever compared). *)

From stdpp Require Import gmap strings list pretty.
From Stdlib Require Import ZArith Ascii.

Set Warnings "-register-all".
Open Scope Z_scope.
Open Scope string_scope.

(** ** Python values and exceptions *)

Inductive json : Type :=
| JNull
| JBool (b : bool)
| JNum (n : Z)
| JStr (s : string)
| JArr (items : list json)
| JObj (fields : list (string * json)).

(** The four messages with which this module raises
    [keystone.exception.Unauthorized]. *)
Inductive unauthorized : Type :=
| MissingName                       (* "The authentication payload is missing the name" *)
| MissingPassword                   (* "The authentication payload is missing the password" *)
| CatalogParse (key : string)       (* "Could not parse the Rackspace Service Catalog for access: <key>" *)
| AuthFailed (auth_type : string).  (* "Failed to authenticate using the Rackspace Identity API with <auth_type>" *)

Inductive exn : Type :=
| KeyError (key : string)
| TypeError
| AttributeError
| ParserError                       (* dateutil.parser.ParserError, a ValueError *)
| JSONDecodeError                   (* requests.exceptions.JSONDecodeError *)
| HTTPError (status : Z)            (* requests.HTTPError *)
| ConnectionError                   (* requests.ConnectionError *)
| Timeout                           (* requests.Timeout *)
| RecursionError
| Unauthorized (why : unauthorized)
| ExternalError (name : string).    (* anything else a collaborator raises *)

Inductive result (A : Type) : Type :=
| Ok (a : A)
| Raise (e : exn).
Arguments Ok {A} a.
Arguments Raise {A} e.

Definition rbind {A B} (r : result A) (k : A → result B) : result B :=
  match r with
  | Ok a => k a
  | Raise e => Raise e
  end.

Notation "x <~ r ;; k" := (rbind r (fun x => k))
  (at level 100, r at next level, right associativity).

(** [try: r  except KeyError: h]. *)
Definition except_KeyError {A} (r : result A) (h : string → result A) : result A :=
  match r with
  | Raise (KeyError k) => h k
  | _ => r
  end.

(** Python truthiness of a JSON value. *)
Definition truthy (v : json) : bool :=
  match v with
  | JNull => false
  | JBool b => b
  | JNum n => negb (Z.eqb n 0)
  | JStr s => negb (String.eqb s "")
  | JArr items => match items with [] => false | _ => true end
  | JObj fields => match fields with [] => false | _ => true end
  end.

(** Truthiness of a value that is a [str] or [None]. *)
Definition truthy_str (o : option string) : bool :=
  match o with
  | Some s => negb (String.eqb s "")
  | None => false
  end.

Fixpoint dict_lookup (k : string) (fields : list (string * json)) : option json :=
  match fields with
  | [] => None
  | (k', v) :: rest => if String.eqb k k' then Some v else dict_lookup k rest
  end.

(** [d[k]]: a [KeyError] on a dict without the key, a [TypeError] on
    anything that is not a dict (a string key never indexes a list, a
    string, a number or [None]). *)
Definition getitem (d : json) (k : string) : result json :=
  match d with
  | JObj fields =>
      match dict_lookup k fields with
      | Some v => Ok v
      | None => Raise (KeyError k)
      end
  | _ => Raise TypeError
  end.

(** [k in d] for a dict [d]. *)
Definition contains (d : json) (k : string) : bool :=
  match d with
  | JObj fields => bool_decide (is_Some (dict_lookup k fields))
  | _ => false
  end.

Fixpoint dict_update (k : string) (v : json) (fields : list (string * json))
  : list (string * json) :=
  match fields with
  | [] => [(k, v)]
  | (k', v') :: rest =>
      if String.eqb k k' then (k, v) :: rest else (k', v') :: dict_update k v rest
  end.

(** [d[k] = v] for a dict [d] (the only receiver the module assigns to). *)
Definition setitem (d : json) (k : string) (v : json) : json :=
  match d with
  | JObj fields => JObj (dict_update k v fields)
  | _ => d
  end.

(** Iterating a value in a list comprehension: a list yields its items, a
    dict its keys, a string its characters; nothing else is iterable. *)
Definition py_iter (v : json) : result (list json) :=
  match v with
  | JArr items => Ok items
  | JObj fields => Ok (map (λ kv, JStr (fst kv)) fields)
  | JStr s => Ok (map (λ c, JStr (String c EmptyString)) (String.list_ascii_of_string s))
  | _ => Raise TypeError
  end.

(** ** The two regular expressions *)

Definition newline : ascii := Ascii.ascii_of_nat 10.
Definition backslash : ascii := Ascii.ascii_of_nat 92.
Definition quote : ascii := Ascii.ascii_of_nat 39.
Definition colon : ascii := Ascii.ascii_of_nat 58.

(** [[a-fA-F0-9]] *)
Definition is_hex (c : ascii) : bool :=
  let n := Ascii.nat_of_ascii c in
  (Nat.leb 48 n && Nat.leb n 57) || (Nat.leb 65 n && Nat.leb n 70)
  || (Nat.leb 97 n && Nat.leb n 102).

(** [hash_types = [r"^[a-fA-F0-9]{%s}$" % i for i in [32, 40, 64]]]: each
    pattern is kept as its length. *)
Definition hash_types : list nat := [32; 40; 64]%nat.

(** [re.match(r"^[a-fA-F0-9]{n}$", s) is not None].  Without
    [re.MULTILINE], [$] matches at the end of the string and also just
    before a newline that ends the string. *)
Definition re_match_hash (n : nat) (s : string) : bool :=
  let cs := String.list_ascii_of_string s in
  Nat.eqb (length (take n cs)) n && forallb is_hex (take n cs) &&
  match drop n cs with
  | [] => true
  | [c] => bool_decide (c = newline)
  | _ => false
  end.

(** The group of [(.*?[^\\])'] read from the start of [t]: the lazy [.*?]
    takes as few characters as possible, none of them a newline; the
    character before the closing quote is anything but a backslash.
    Returns the group (in [acc], reversed) and the text after the quote. *)
Fixpoint lazy_group (t : list ascii) (acc : list ascii)
  : option (list ascii * list ascii) :=
  match t with
  | c :: t' =>
      match t' with
      | q :: rest =>
          if negb (bool_decide (c = backslash)) && bool_decide (q = quote)
          then Some (rev (c :: acc), rest)
          else if bool_decide (c = newline) then None
          else lazy_group t' (c :: acc)
      | [] => None
      end
  | [] => None
  end.

Fixpoint skip_literal (p t : list ascii) : option (list ascii) :=
  match p, t with
  | [], _ => Some t
  | a :: p', b :: t' => if bool_decide (a = b) then skip_literal p' t' else None
  | _ :: _, [] => None
  end.

Definition sessionId_prefix : list ascii :=
  String.list_ascii_of_string "sessionId='".

(** [re.compile(r"sessionId='(.*?[^\\])'").findall(s)]: the groups of the
    non-overlapping matches, left to right.  [fuel] bounds the number of
    scan steps; [length s] steps are always enough ([findall] below). *)
Fixpoint findall_from (fuel : nat) (s : list ascii) : list string :=
  match fuel with
  | O => []
  | S fuel' =>
      match s with
      | [] => []
      | _ :: s' =>
          match skip_literal sessionId_prefix s with
          | Some t =>
              match lazy_group t [] with
              | Some (g, rest) => String.string_of_list_ascii g :: findall_from fuel' rest
              | None => findall_from fuel' s'
              end
          | None => findall_from fuel' s'
          end
      end
  end.

Definition findall (s : string) : list string :=
  let cs := String.list_ascii_of_string s in findall_from (length cs) cs.

(** [name.split(":")[-1]]: what follows the last colon, the whole string
    when there is none. *)
Fixpoint last_segment_from (cs : list ascii) (acc : list ascii) : list ascii :=
  match cs with
  | [] => rev acc
  | c :: cs' =>
      if bool_decide (c = colon) then last_segment_from cs' []
      else last_segment_from cs' (c :: acc)
  end.

Definition last_segment (s : string) : string :=
  String.string_of_list_ascii (last_segment_from (String.list_ascii_of_string s) []).

(** [sep.join(l)] *)
Fixpoint join (sep : string) (l : list string) : string :=
  match l with
  | [] => ""
  | [x] => x
  | x :: rest => x +:+ sep +:+ join sep rest
  end.

(** ** The process state and the collaborators *)

(** What [requests] hands back from [session.post]. *)
Record response : Type := mkResponse {
  status_code : Z;
  www_authenticate : option string;  (* r.headers["WWW-Authenticate"], None when absent *)
  body : option json;                (* r.json(); None when the body does not decode *)
}.

(** [keystone.auth.plugins.base.AuthHandlerResponse] *)
Record AuthHandlerResponse : Type := mkAuthHandlerResponse {
  status : bool;
  response_body : option json;
  response_data : option json;
}.

(** Pure library functions, the same in every call. *)
Record Lib : Type := mkLib {
  sha224_hexdigest : string → string;   (* hashlib.sha224(s.encode("utf-8")).hexdigest() *)
  json_dumps : json → string;           (* json.dumps(v, sort_keys=True) *)
  parser_parse : string → option Z;     (* dateutil parse, then .timestamp(); None = ParserError *)
}.

(** What one call meets outside the process. *)
Record World : Type := mkWorld {
  now : Z;                                          (* token_expire.now().timestamp() *)
  post : json → gmap string string → result response;   (* session.post(URL, json=, headers=) *)
  handle_scoped_token : json → result json;         (* validate_token(id), then mapped.handle_scoped_token *)
  handle_unscoped_token : json → gmap string json → result json;
                                                    (* mapped.handle_unscoped_token(payload, ...), reading environ *)
  os_authenticate : json → result AuthHandlerResponse;  (* super().authenticate(auth_payload) *)
}.

(** The state shared by every call in the process: the two cache regions,
    the class attribute [RXTv2Credentials.rxt_headers] (one dict for all
    instances), the class attribute [session] (how often it was closed),
    the request's [environ], and a log of the POSTs sent so far, oldest
    first (ghost state: body and headers of each). *)
Record state : Type := mkState {
  RXT_SESSION_CACHE : gmap string string;
  RXT_SERVICE_CACHE : gmap string json;
  rxt_headers : gmap string string;
  session_closes : nat;
  environ : gmap string json;
  posted : list (json * gmap string string);
}.

Definition M (A : Type) : Type := state → result A * state.

Definition ret {A} (a : A) : M A := λ st, (Ok a, st).
Definition raise {A} (e : exn) : M A := λ st, (Raise e, st).
Definition lift {A} (r : result A) : M A := λ st, (r, st).
Definition bind {A B} (m : M A) (k : A → M B) : M B :=
  λ st, match m st with
        | (Ok a, st') => k a st'
        | (Raise e, st') => (Raise e, st')
        end.

Notation "x <- m ;; k" := (bind m (fun x => k))
  (at level 100, m at next level, right associativity).

Definition session_cache_get (k : string) : M (option string) :=
  λ st, (Ok (RXT_SESSION_CACHE st !! k), st).

Definition session_cache_set (k v : string) : M unit :=
  λ st, (Ok (), mkState (<[k:=v]> (RXT_SESSION_CACHE st)) (RXT_SERVICE_CACHE st)
                        (rxt_headers st) (session_closes st) (environ st) (posted st)).

Definition service_cache_get (k : string) : M (option json) :=
  λ st, (Ok (RXT_SERVICE_CACHE st !! k), st).

Definition service_cache_set (k : string) (v : json) : M unit :=
  λ st, (Ok (), mkState (RXT_SESSION_CACHE st) (<[k:=v]> (RXT_SERVICE_CACHE st))
                        (rxt_headers st) (session_closes st) (environ st) (posted st)).

Definition service_cache_delete (k : string) : M unit :=
  λ st, (Ok (), mkState (RXT_SESSION_CACHE st) (delete k (RXT_SERVICE_CACHE st))
                        (rxt_headers st) (session_closes st) (environ st) (posted st)).

(** [self.rxt_headers[k] = v]: the dict is the class's, not the instance's. *)
Definition set_header (k v : string) : M unit :=
  λ st, (Ok (), mkState (RXT_SESSION_CACHE st) (RXT_SERVICE_CACHE st)
                        (<[k:=v]> (rxt_headers st)) (session_closes st) (environ st)
                        (posted st)).

(** [flask.request.environ[k] = v] *)
Definition set_environ (k : string) (v : json) : M unit :=
  λ st, (Ok (), mkState (RXT_SESSION_CACHE st) (RXT_SERVICE_CACHE st)
                        (rxt_headers st) (session_closes st) (<[k:=v]> (environ st))
                        (posted st)).

(** [self.session.post(RACKPSACE_IDENTITY_V2, json=auth_data,
    headers=self.rxt_headers)] *)
Definition session_post (w : World) (auth_data : json) : M response :=
  λ st, (post w auth_data (rxt_headers st),
         mkState (RXT_SESSION_CACHE st) (RXT_SERVICE_CACHE st) (rxt_headers st)
                 (session_closes st) (environ st)
                 (posted st ++ [(auth_data, rxt_headers st)])).

Definition session_close : M unit :=
  λ st, (Ok (), mkState (RXT_SESSION_CACHE st) (RXT_SERVICE_CACHE st) (rxt_headers st)
                        (S (session_closes st)) (environ st) (posted st)).

(** ** class RXTv2Credentials *)

(** The instance attributes.  [session_id] and [rxt_auth_payload] start
    as the class attributes of the same names, both [None], and are
    shadowed by the instance on assignment. *)
Record RXTv2Credentials : Type := mkRXT {
  auth_payload : json;
  hashed_auth_payload : string;
  hashed_auth_user : string;
  session_id : option string;
  rxt_auth_payload : option (string * json);
}.

Definition with_session_id (self : RXTv2Credentials) (sid : option string) :=
  mkRXT (auth_payload self) (hashed_auth_payload self) (hashed_auth_user self)
        sid (rxt_auth_payload self).

Definition with_rxt_auth_payload (self : RXTv2Credentials) (creds : string * json) :=
  mkRXT (auth_payload self) (hashed_auth_payload self) (hashed_auth_user self)
        (session_id self) (Some creds).

Definition _username (payload : json) : result json :=
  except_KeyError (user <~ getitem payload "user" ;; getitem user "name")
    (λ _, except_KeyError (user <~ getitem payload "user" ;; getitem user "username")
            (λ _, Raise (Unauthorized MissingName))).

Definition _password (payload : json) : result json :=
  except_KeyError (user <~ getitem payload "user" ;; getitem user "password")
    (λ _, Raise (Unauthorized MissingPassword)).

Definition _passcode (payload : json) : result json :=
  except_KeyError (user <~ getitem payload "user" ;; getitem user "passcode")
    (λ _, Ok JNull).

(** [v.encode("utf-8")]: only a [str] has the method. *)
Definition encode_utf8 (v : json) : result string :=
  match v with
  | JStr s => Ok s
  | _ => Raise AttributeError
  end.

Definition __init__ (lib : Lib) (payload : json) : result RXTv2Credentials :=
  let hashed_payload := sha224_hexdigest lib (json_dumps lib payload) in
  username <~ _username payload ;;
  name <~ encode_utf8 username ;;
  Ok (mkRXT payload hashed_payload (sha224_hexdigest lib name) None None).

(** The property [_sessionID]: the last match of the pattern in the cached
    header.  [findall] of a cache miss raises [TypeError] and [pop] of no
    match raises [IndexError]; both are caught and give [None]. *)
Definition _sessionID (self : RXTv2Credentials) : M (option string) :=
  session_header <- session_cache_get (hashed_auth_user self) ;;
  match session_header with
  | Some h => ret (last (findall h))
  | None => ret None
  end.

Definition apiKeyCredentials (self : RXTv2Credentials) : result (string * json) :=
  username <~ _username (auth_payload self) ;;
  password <~ _password (auth_payload self) ;;
  Ok ("apiKeyCredentials",
      JObj [("auth", JObj [("RAX-KSKEY:apiKeyCredentials",
                            JObj [("username", username); ("apiKey", password)])])]).

Definition passwordCredentials (self : RXTv2Credentials) : result (string * json) :=
  username <~ _username (auth_payload self) ;;
  password <~ _password (auth_payload self) ;;
  Ok ("passwordCredentials",
      JObj [("auth", JObj [("passwordCredentials",
                            JObj [("username", username); ("password", password)])])]).

Definition passcodeCredentials (self : RXTv2Credentials) : result (string * json) :=
  passcode <~ _passcode (auth_payload self) ;;
  Ok ("passcodeCredentials",
      JObj [("auth", JObj [("RAX-AUTH:passcodeCredentials",
                            JObj [("passcode", passcode)])])]).

(** [re.match(pattern, v)] needs a string. *)
Definition as_str (v : json) : result string :=
  match v with
  | JStr s => Ok s
  | _ => Raise TypeError
  end.

(** The [for hash_type in self.hash_types] loop of [__enter__]: [true]
    when it left through [break].  [self._password] is read afresh in
    every round. *)
Fixpoint hash_type_loop (payload : json) (patterns : list nat) : result bool :=
  match patterns with
  | [] => Ok false
  | n :: rest =>
      password <~ _password payload ;;
      s <~ as_str password ;;
      if re_match_hash n s then Ok true else hash_type_loop payload rest
  end.

Definition __enter__ (self : RXTv2Credentials) : M RXTv2Credentials :=
  sid <- _sessionID self ;;
  let self := with_session_id self sid in
  passcode <- lift (_passcode (auth_payload self)) ;;
  self <- (if truthy passcode && truthy_str (session_id self) then
             creds <- lift (passcodeCredentials self) ;;
             _ <- set_header "X-SessionId" (default "" (session_id self)) ;;
             ret (with_rxt_auth_payload self creds)
           else
             matched <- lift (hash_type_loop (auth_payload self) hash_types) ;;
             if (matched : bool) then
               creds <- lift (apiKeyCredentials self) ;;
               ret (with_rxt_auth_payload self creds)
             else ret self) ;;
  match rxt_auth_payload self with
  | Some _ => ret self
  | None =>
      creds <- lift (passwordCredentials self) ;;
      ret (with_rxt_auth_payload self creds)
  end.

Definition __exit__ (self : RXTv2Credentials) : M unit := session_close.

(** *** The catalog translator *)

(** [if value: flask.request.environ[key] = value] *)
Definition set_if (key : string) (value : json) : M unit :=
  if truthy value then set_environ key value else ret ().

Definition set_federation_env
    (username email domain_id tenant_name tenant_id org_person_type : json) : M unit :=
  _ <- set_if "RXT_UserName" username ;;
  _ <- set_if "RXT_Email" email ;;
  _ <- set_if "RXT_DomainID" domain_id ;;
  _ <- set_if "RXT_TenantName" tenant_name ;;
  _ <- set_if "RXT_TenantID" tenant_id ;;
  set_if "RXT_orgPersonType" org_person_type.

(** [i["name"].split(":")[-1]] *)
Definition role_name (i : json) : result string :=
  name <~ getitem i "name" ;;
  match name with
  | JStr s => Ok (last_segment s)
  | _ => Raise AttributeError
  end.

Fixpoint map_result {A B} (f : A → result B) (l : list A) : result (list B) :=
  match l with
  | [] => Ok []
  | x :: rest => y <~ f x ;; ys <~ map_result f rest ;; Ok (y :: ys)
  end.

(** [set([i["name"].split(":")[-1] for i in
    service_catalog["access"]["user"]["roles"]])] *)
Definition access_user_roles (service_catalog : json) : result (gset string) :=
  access <~ getitem service_catalog "access" ;;
  user <~ getitem access "user" ;;
  roles <~ getitem user "roles" ;;
  items <~ py_iter roles ;;
  names <~ map_result role_name items ;;
  Ok (list_to_set names).

(** [";".join(access_user_roles)]: the order in which a set is iterated
    is the representation's, here as in Python. *)
Definition org_person_type_of (roles : gset string) : string :=
  join ";" (elements roles).

(** The six arguments of the call to [set_federation_env], evaluated in
    source order before the call is made. *)
Definition federation_attributes (service_catalog : json)
  : result (json * json * json * json * json * json) :=
  access <~ getitem service_catalog "access" ;;
  access_user <~ getitem access "user" ;;
  access_token <~ getitem access "token" ;;
  roles <~ access_user_roles service_catalog ;;
  username <~ getitem access_user "name" ;;
  email <~ getitem access_user "email" ;;
  domain_id <~ getitem access_user "RAX-AUTH:domainId" ;;
  tenant_name <~ (tenant <~ getitem access_token "tenant" ;; getitem tenant "name") ;;
  tenant_id <~ (tenant <~ getitem access_token "tenant" ;; getitem tenant "id") ;;
  Ok (username, email, domain_id, tenant_name, tenant_id,
      JStr (org_person_type_of roles)).

Definition parse_service_catalog (service_catalog : json) : M unit :=
  match federation_attributes service_catalog with
  | Ok (username, email, domain_id, tenant_name, tenant_id, org_person_type) =>
      set_federation_env username email domain_id tenant_name tenant_id org_person_type
  | Raise (KeyError k) => raise (Unauthorized (CatalogParse k))
  | Raise e => raise e
  end.

(** *** The auth handler response *)

(** The payload after [self.auth_payload["identity_provider"] =
    "rackspace"] and [self.auth_payload["protocol"] = "rackspace"]; the
    dict written to is the caller's. *)
Definition federated_payload (payload : json) : json :=
  setitem (setitem payload "identity_provider" (JStr "rackspace"))
          "protocol" (JStr "rackspace").

(** What [return_auth_handler] answers for a payload and the request's
    [environ], which [mapped.handle_unscoped_token] reads. *)
Definition auth_handler_response (w : World) (payload : json) (env : gmap string json)
  : result AuthHandlerResponse :=
  let payload := federated_payload payload in
  response_data <~ (if contains payload "id"
                    then id <~ getitem payload "id" ;; handle_scoped_token w id
                    else handle_unscoped_token w payload env) ;;
  Ok (mkAuthHandlerResponse true None (Some response_data)).

Definition return_auth_handler (w : World) (self : RXTv2Credentials)
  : M AuthHandlerResponse :=
  λ st, (auth_handler_response w (auth_payload self) (environ st), st).

(** The response of a pending MFA exchange. *)
Definition mfa_pending : AuthHandlerResponse := mkAuthHandlerResponse false None None.

(** *** The exchange *)

(** [r.raise_for_status()] *)
Definition raise_for_status (r : response) : result unit :=
  if Z.leb 400 (status_code r) && Z.ltb (status_code r) 600
  then Raise (HTTPError (status_code r))
  else Ok ().

(** [r.json()] *)
Definition response_json (r : response) : result json :=
  match body r with
  | Some v => Ok v
  | None => Raise JSONDecodeError
  end.

(** [service_catalog["access"]["token"]["expires"]] *)
Definition catalog_expires (service_catalog : json) : result json :=
  access <~ getitem service_catalog "access" ;;
  token <~ getitem access "token" ;;
  getitem token "expires".

(** [parser.parse(expires).timestamp()]: the parser takes a string. *)
Definition token_expire (lib : Lib) (expires : json) : result Z :=
  match expires with
  | JStr s =>
      match parser_parse lib s with
      | Some t => Ok t
      | None => Raise ParserError
      end
  | _ => Raise TypeError
  end.

(** Lines 359-378 of [_rxt_auth]: the look at the service cache.  [true]
    when the method returned from inside this block (with [False]). *)
Definition cached_catalog (lib : Lib) (w : World) (self : RXTv2Credentials) : M bool :=
  service_catalog <- service_cache_get (hashed_auth_payload self) ;;
  match service_catalog with
  | Some sc =>
      if truthy sc then
        match catalog_expires sc with
        | Raise (KeyError _) =>
            _ <- service_cache_delete (hashed_auth_payload self) ;; ret false
        | Raise e => raise e
        | Ok expires =>
            t <- lift (token_expire lib expires) ;;
            if Z.ltb (now w) t then
              _ <- parse_service_catalog sc ;; ret true
            else
              _ <- service_cache_delete (hashed_auth_payload self) ;; ret false
        end
      else ret false
  | None => ret false
  end.

(** [r.status_code == 401 and "WWW-Authenticate" in r.headers], with the
    header's value when it holds. *)
Definition mfa_challenge (r : response) : option string :=
  if Z.eqb (status_code r) 401 then www_authenticate r else None.

(** Lines 384-401 of [_rxt_auth]: the POST and what is made of the
    response.  The value is the method's: [true] for a pending MFA. *)
Definition exchange (w : World) (self : RXTv2Credentials) (auth_data : json) : M bool :=
  r <- session_post w auth_data ;;
  match mfa_challenge r with
  | Some header =>
      _ <- session_cache_set (hashed_auth_user self) header ;; ret true
  | None =>
      _ <- lift (raise_for_status r) ;;
      service_catalog <- lift (response_json r) ;;
      _ <- parse_service_catalog service_catalog ;;
      _ <- service_cache_set (hashed_auth_payload self) service_catalog ;;
      ret false
  end.

Definition _rxt_auth (lib : Lib) (w : World) (self : RXTv2Credentials)
    (auth_data : json) (auth_type : string) : M bool :=
  from_cache <- cached_catalog lib w self ;;
  if (from_cache : bool) then ret false
  else if truthy_str (session_id self) && String.eqb auth_type "passwordCredentials"
  then ret true
  else exchange w self auth_data.

(** [rxt_auth] calls itself in its [except requests.HTTPError] branch;
    [depth] is the number of frames the interpreter still allows. *)
Fixpoint rxt_auth (depth : nat) (lib : Lib) (w : World) (self : RXTv2Credentials)
  : M AuthHandlerResponse :=
  match depth with
  | O => raise RecursionError
  | S depth' =>
      match rxt_auth_payload self with
      | None => raise TypeError
      | Some (auth_type, auth_data) =>
          λ st,
            match _rxt_auth lib w self auth_data auth_type st with
            | (Raise (HTTPError _), st') =>
                if String.eqb auth_type "apiKeyCredentials" then
                  (creds <- lift (passwordCredentials self) ;;
                   rxt_auth depth' lib w (with_rxt_auth_payload self creds)) st'
                else (Raise (Unauthorized (AuthFailed auth_type)), st')
            | (Raise e, st') => (Raise e, st')
            | (Ok rxt_auth_mfa, st') =>
                if (rxt_auth_mfa : bool) then (Ok mfa_pending, st')
                else return_auth_handler w self st'
            end
      end
  end.

(** ** The two plugins *)

(** [sys.getrecursionlimit()] of a default interpreter. *)
Definition recursion_limit : nat := 1000.

(** [with RXTv2Credentials(auth_payload=auth_payload) as rxt: return
    rxt.rxt_auth()].  [__exit__] runs once [__enter__] has returned,
    whether the body returns or raises, and lets an exception pass. *)
Definition rackspace_login (lib : Lib) (w : World) (payload : json)
  : M AuthHandlerResponse :=
  rxt <- lift (__init__ lib payload) ;;
  rxt <- __enter__ rxt ;;
  λ st,
    let '(r, st') := rxt_auth recursion_limit lib w rxt st in
    (r, snd (__exit__ rxt st')).


(** ** Vocabulary of the properties *)

(** The credential selector: construct the object, then enter it. *)
Definition select_credentials (lib : Lib) (payload : json) : M RXTv2Credentials :=
  rxt <- lift (__init__ lib payload) ;; __enter__ rxt.

(** A passcode is present: [self._passcode] is a value Python takes as
    true (not [None], not empty). *)
Definition passcode_present (payload : json) : bool :=
  match _passcode payload with
  | Ok v => truthy v
  | Raise _ => false
  end.

(** The session identifier embedded in the SessionHeader cached for the
    user, when there is one. *)
Definition cached_session_id (rxt : RXTv2Credentials) (st : state) : option string :=
  match RXT_SESSION_CACHE st !! hashed_auth_user rxt with
  | Some header => last (findall header)
  | None => None
  end.

(** The kind of credentials the selector settled on. *)
Definition selected_kind (r : result RXTv2Credentials * state) : option string :=
  match fst r with
  | Ok rxt => fst <$> rxt_auth_payload rxt
  | Raise _ => None
  end.


Definition header_set (k v : string) (st : state) : state :=
  snd (set_header k v st).

(** The POSTs of one call: what [posted] gained between [st] and [st']. *)
Definition exchanges (st st' : state) : list (json * gmap string string) :=
  drop (length (posted st)) (posted st').

(** The upstream answer is an HTTP error: [post] raised
    [requests.HTTPError], or the response is no MFA challenge and
    [raise_for_status] raises. *)
Definition http_failure (r : result response) : Prop :=
  match r with
  | Raise (HTTPError _) => True
  | Ok resp => mfa_challenge resp = None ∧ 400 ≤ status_code resp < 600
  | Raise _ => False
  end.



(** Two states of the process that differ at most in the request's
    [environ]. *)
Definition same_process (st st' : state) : Prop :=
  RXT_SESSION_CACHE st' = RXT_SESSION_CACHE st ∧
  RXT_SERVICE_CACHE st' = RXT_SERVICE_CACHE st ∧
  rxt_headers st' = rxt_headers st ∧
  session_closes st' = session_closes st ∧
  posted st' = posted st.

(** The state after the POST of [auth_data] was logged. *)
Definition logged (auth_data : json) (st : state) : state :=
  mkState (RXT_SESSION_CACHE st) (RXT_SERVICE_CACHE st) (rxt_headers st)
          (session_closes st) (environ st) (posted st ++ [(auth_data, rxt_headers st)]).

Definition closed (st : state) : state := snd (session_close st).

(** The state after the entry of [self]'s payload left the service cache. *)
Definition evicted (self : RXTv2Credentials) (st : state) : state :=
  snd (service_cache_delete (hashed_auth_payload self) st).

(** The state after a catalog was cached for [self]'s payload. *)
Definition catalog_cached (self : RXTv2Credentials) (sc : json) (st : state) : state :=
  snd (service_cache_set (hashed_auth_payload self) sc st).

(** The state after a challenge header was cached for [self]'s user. *)
Definition header_cached (self : RXTv2Credentials) (header : string) (st : state)
  : state :=
  snd (session_cache_set (hashed_auth_user self) header st).

(** The service cache holds nothing Python takes as true for [self]'s
    payload. *)
Definition no_catalog (self : RXTv2Credentials) (st : state) : Prop :=
  match RXT_SERVICE_CACHE st !! hashed_auth_payload self with
  | Some sc => truthy sc = false
  | None => True
  end.

(** The exceptions reading a JSON value can raise: a missing key, a
    value of the wrong type, a method the value does not have. *)
Definition data_error (e : exn) : Prop :=
  match e with
  | KeyError _ | TypeError | AttributeError => True
  | _ => False
  end.

(** The exceptions the module has an [except] clause for. *)
Definition handled (e : exn) : Prop :=
  match e with
  | HTTPError _ | KeyError _ => True
  | _ => False
  end.

(** The payload has no [user.password]. *)
Definition password_absent (payload : json) : Prop :=
  _password payload = Raise (Unauthorized MissingPassword).

(** The fallback as the specification words it: once the exchange of an
    API-key attempt failed with an HTTP error the call makes exactly one
    more POST, with password credentials, and an HTTP error of that one
    ends the call with [Unauthorized]. *)
Definition fallback_as_stated (lib : Lib) (w : World) (payload : json) (st : state)
  : Prop :=
  ∀ rxt st0 api_data s st1,
    select_credentials lib payload st = (Ok rxt, st0) →
    rxt_auth_payload rxt = Some ("apiKeyCredentials", api_data) →
    _rxt_auth lib w rxt api_data "apiKeyCredentials" st0 = (Raise (HTTPError s), st1) →
    ∃ password_data,
      passwordCredentials rxt = Ok ("passwordCredentials", password_data) ∧
      exchanges st (snd (rackspace_login lib w payload st)) =
        [(api_data, rxt_headers st0); (password_data, rxt_headers st0)] ∧
      (http_failure (post w password_data (rxt_headers st0)) →
       fst (rackspace_login lib w payload st) =
         Raise (Unauthorized (AuthFailed "passwordCredentials"))).

(** Selection fails for want of a password exactly when the payload has
    neither password nor passcode, as the specification words it. *)
Definition missing_credential_as_stated (lib : Lib) (payload : json) (st : state)
  : Prop :=
  fst (select_credentials lib payload st) = Raise (Unauthorized MissingPassword) ↔
  (password_absent payload ∧ passcode_present payload = false).

(** What a state gained in POSTs, all of them sent with the headers [h]. *)
Definition posts_with (h : gmap string string) (st st' : state) : Prop :=
  ∃ l, posted st' = (posted st ++ l)%list ∧ Forall (λ x, x.2 = h) l.











(** The translator accepts the catalogue: it finds every value it reads. *)
Definition accepted (service_catalog : json) : Prop :=
  ∃ attrs, federation_attributes service_catalog = Ok attrs.

(** A cached catalogue the look into the service cache deletes: one
    without [expires], or one whose [expires] parses and does not lie
    ahead. *)
Definition stale (lib : Lib) (w : World) (service_catalog : json) : Prop :=
  (truthy service_catalog = true ∧ ∃ k, catalog_expires service_catalog = Raise (KeyError k)) ∨
  (∃ expires t, catalog_expires service_catalog = Ok (JStr expires) ∧
                parser_parse lib expires = Some t ∧ (t ≤ now w)%Z).

(** ** A concrete process for the examples *)

Module Demo.

(** A stand-in for [json.dumps]: keys in the order they stand. *)
Fixpoint dumps (v : json) : string :=
  match v with
  | JNull => "null"
  | JBool b => if b then "true" else "false"
  | JNum n => pretty n
  | JStr s => "<" +:+ s +:+ ">"
  | JArr items => "[" +:+ join "," (map dumps items) +:+ "]"
  | JObj fields =>
      "{" +:+ join "," (map (λ kv, let '(k, x) := kv in k +:+ ":" +:+ dumps x) fields)
          +:+ "}"
  end.

(** [dateutil] on the timestamps used below; it parses nothing else. *)
Definition dates (s : string) : option Z :=
  if String.eqb s "2020-01-01T00:00:00Z" then Some 1577836800
  else if String.eqb s "2030-01-01T00:00:00Z" then Some 1893456000
  else None.

Definition lib : Lib := mkLib (λ s, "sha224(" +:+ s +:+ ")") dumps dates.

Definition world (t : Z) (upstream : json → gmap string string → result response)
  : World :=
  mkWorld t upstream (λ _, Ok (JStr "scoped token"))
          (λ _ _, Ok (JStr "unscoped token"))
          (λ _, Raise (ExternalError "keystone password plugin")).

Definition fresh : state := mkState ∅ ∅ ∅ 0 ∅ [].

Definition rackspace_domain : json :=
  JObj [("name", JStr "rackspace_cloud_domain")].

Definition user (fields : list (string * json)) : json :=
  JObj [("user", JObj (("domain", rackspace_domain) :: fields))].

Definition api_key : string := "deadbeefdeadbeefdeadbeefdeadbeef".

Definition alice_password : json :=
  user [("name", JStr "alice"); ("password", JStr "hunter2")].
Definition alice_api_key : json :=
  user [("name", JStr "alice"); ("password", JStr api_key)].
Definition alice_passcode : json :=
  user [("name", JStr "alice"); ("passcode", JStr "123456")].
Definition bob_password : json :=
  user [("name", JStr "bob"); ("password", JStr "s3cret")].

Definition mfa_header : string := "OS-MF sessionId='abc123', factor='PASSCODE'".

(** The process after alice was sent an MFA challenge. *)
Definition challenged : state :=
  mkState {[ "sha224(alice)" := mfa_header ]} ∅ ∅ 0 ∅ [].

Definition catalog (roles : list json) (expires : json) : json :=
  JObj [("access",
         JObj [("token", JObj [("expires", expires);
                               ("tenant", JObj [("id", JStr "1234");
                                                ("name", JStr "1234")])]);
               ("user", JObj [("RAX-AUTH:domainId", JStr "1234");
                              ("email", JStr "alice@example.com");
                              ("name", JStr "alice");
                              ("roles", JArr roles)])])].

Definition role (name : string) : json := JObj [("name", JStr name)].

Definition good_catalog : json :=
  catalog [role "foo:bar"; role "foo:admin"] (JStr "2030-01-01T00:00:00Z").

(** Upstream answers of every kind. *)
Definition succeeds : json → gmap string string → result response :=
  λ _ _, Ok (mkResponse 200 None (Some good_catalog)).
Definition forbids : json → gmap string string → result response :=
  λ _ _, Ok (mkResponse 403 None None).
Definition challenges : json → gmap string string → result response :=
  λ _ _, Ok (mkResponse 401 (Some mfa_header) None).

(** The CredentialFingerprint of a payload. *)
Definition fingerprint (payload : json) : string :=
  sha224_hexdigest lib (json_dumps lib payload).

(** A process whose service cache holds, for alice's password payload, a
    catalog with the given [expires]. *)
Definition cached (expires : json) : state :=
  mkState ∅ {[ fingerprint alice_password := catalog [role "foo:bar"] expires ]} ∅ 0 ∅ [].


End Demo.

(** ** Regular expressions on examples *)

Example findall_mfa_header :
  findall "OS-MF sessionId='abc123', factor='PASSCODE'" = ["abc123"].
Proof. reflexivity. Qed.

Example findall_no_session :
  findall "Keystone uri=https://identity.api.rackspacecloud.com" = [].
Proof. reflexivity. Qed.

Example last_segment_role : last_segment "identity:user-admin" = "user-admin".
Proof. reflexivity. Qed.

Example re_match_hash_32 :
  re_match_hash 32 "deadbeefdeadbeefdeadbeefdeadbeef" = true.
Proof. reflexivity. Qed.

Ltac run := unfold bind, lift, ret, raise, rbind, except_KeyError in *; simpl in *.

Lemma init_inv lib payload rxt :
  __init__ lib payload = Ok rxt →
  ∃ name fields,
    getitem payload "user" = Ok (JObj fields) ∧
    _username payload = Ok (JStr name) ∧
    rxt = mkRXT payload (sha224_hexdigest lib (json_dumps lib payload))
                (sha224_hexdigest lib name) None None.
Proof.
  unfold __init__. intros H.
  destruct (_username payload) as [username|e] eqn:Hn; [|done].
  destruct username; try done. simpl in H. simplify_eq.
  exists s.
  unfold _username in Hn. run.
  destruct (getitem payload "user") as [user|e] eqn:Hu.
  - destruct user; simpl in Hn; try done. eauto.
  - destruct e; done.
Qed.

Lemma passcode_total payload fields :
  getitem payload "user" = Ok (JObj fields) →
  _passcode payload = Ok (default JNull (dict_lookup "passcode" fields)).
Proof.
  intros H. unfold _passcode. rewrite H. run.
  destruct (dict_lookup "passcode" fields); done.
Qed.

Lemma password_cases payload fields :
  getitem payload "user" = Ok (JObj fields) →
  _password payload =
    match dict_lookup "password" fields with
    | Some v => Ok v
    | None => Raise (Unauthorized MissingPassword)
    end.
Proof.
  intros H. unfold _password. rewrite H. run.
  destruct (dict_lookup "password" fields); done.
Qed.

Lemma lazy_group_nonempty t acc g rest :
  lazy_group t acc = Some (g, rest) → g ≠ [].
Proof.
  revert acc. induction t as [|c t IH]; intros acc; simpl; [done|].
  destruct t as [|q rest']; [done|].
  repeat case_match; try done.
  - intros [= <- <-]. simpl. intros Hnil. by apply app_eq_nil in Hnil as [_ ?].
  - apply IH.
Qed.

Lemma findall_from_nonempty n cs s :
  s ∈ findall_from n cs → s ≠ "".
Proof.
  revert cs. induction n as [|n IH]; intros cs; cbn [findall_from].
  - by intros ?%elem_of_nil.
  - destruct cs as [|c cs']; [by intros ?%elem_of_nil|].
    destruct (skip_literal sessionId_prefix (c :: cs')) as [t|]; [|apply IH].
    destruct (lazy_group t []) as [[g rest]|] eqn:Hg; [|apply IH].
    intros [->|Hin]%elem_of_cons; [|by eapply IH].
    apply lazy_group_nonempty in Hg. destruct g; [done|]. done.
Qed.

Lemma last_elem_of {A} (l : list A) x : last l = Some x → x ∈ l.
Proof.
  intros H. apply last_Some in H as [l' ->]. set_solver.
Qed.

Lemma sessionID_eq rxt st : _sessionID rxt st = (Ok (cached_session_id rxt st), st).
Proof.
  unfold _sessionID, cached_session_id, session_cache_get, bind, ret.
  by destruct (RXT_SESSION_CACHE st !! hashed_auth_user rxt).
Qed.

Lemma cached_session_id_truthy rxt st sid :
  cached_session_id rxt st = Some sid → truthy_str (Some sid) = true.
Proof.
  unfold cached_session_id, findall. intros H.
  destruct (RXT_SESSION_CACHE st !! hashed_auth_user rxt) as [h|]; [|done].
  apply last_elem_of, findall_from_nonempty in H.
  simpl. destruct sid; [done|]. done.
Qed.

Lemma hash_type_loop_str payload password patterns :
  _password payload = Ok (JStr password) →
  hash_type_loop payload patterns = Ok (existsb (λ n, re_match_hash n password) patterns).
Proof.
  intros H. induction patterns as [|n rest IH]; [done|].
  cbn [hash_type_loop existsb]. rewrite H. cbn [rbind as_str].
  destruct (re_match_hash n password); [done|]. by rewrite IH.
Qed.

Lemma hash_type_loop_missing payload n patterns e :
  _password payload = Raise e →
  hash_type_loop payload (n :: patterns) = Raise e.
Proof. intros H. cbn [hash_type_loop]. by rewrite H. Qed.

Lemma enter_eq self st :
  rxt_auth_payload self = None →
  __enter__ self st =
    let sid := cached_session_id self st in
    let self1 := with_session_id self sid in
    match _passcode (auth_payload self) with
    | Raise e => (Raise e, st)
    | Ok passcode =>
        if truthy passcode && truthy_str sid then
          match passcodeCredentials self1 with
          | Ok creds => (Ok (with_rxt_auth_payload self1 creds),
                         header_set "X-SessionId" (default "" sid) st)
          | Raise e => (Raise e, st)
          end
        else
          match hash_type_loop (auth_payload self) hash_types with
          | Raise e => (Raise e, st)
          | Ok true =>
              match apiKeyCredentials self1 with
              | Ok creds => (Ok (with_rxt_auth_payload self1 creds), st)
              | Raise e => (Raise e, st)
              end
          | Ok false =>
              match passwordCredentials self1 with
              | Ok creds => (Ok (with_rxt_auth_payload self1 creds), st)
              | Raise e => (Raise e, st)
              end
          end
    end.
Proof.
  intros Hnone. unfold __enter__, bind at 1. rewrite sessionID_eq.
  destruct self as [p hp hu sid0 creds0]. cbn in Hnone. subst creds0.
  cbv zeta. unfold bind, lift, ret, header_set.
  cbn [with_session_id auth_payload session_id rxt_auth_payload with_rxt_auth_payload
       hashed_auth_payload hashed_auth_user].
  repeat (case_match; simplify_eq; try reflexivity).
Qed.


Lemma select_credentials_eq lib payload rxt st :
  __init__ lib payload = Ok rxt →
  select_credentials lib payload st = __enter__ rxt st.
Proof. intros H. unfold select_credentials, bind, lift. by rewrite H. Qed.


(** A passcode without a password, in a process that holds no session
    for the user: selection fails for want of a password. *)
Lemma missing_credential_counterexample :
  ¬ missing_credential_as_stated Demo.lib Demo.alice_passcode Demo.fresh.
Proof.
  unfold missing_credential_as_stated. intros [Hfails _].
  destruct (Hfails eq_refl) as [_ Hpasscode]. discriminate Hpasscode.
Qed.

(** C8 (amended).  For a payload that names its user, selection fails
    with "missing the password" exactly when [user.password] is absent
    and the passcode path is not taken: no passcode is present, or one is
    present but no session identifier is cached for the user. *)
Theorem missing_credential_iff lib payload rxt st :
  __init__ lib payload = Ok rxt →
  fst (select_credentials lib payload st) = Raise (Unauthorized MissingPassword) ↔
  (password_absent payload ∧
   (passcode_present payload = false ∨ cached_session_id rxt st = None)).
Proof.
  intros Hinit. rewrite (select_credentials_eq _ _ _ _ Hinit).
  apply init_inv in Hinit as (name & fields & Hu & Hn & ->).
  pose proof (passcode_total _ _ Hu) as Hp.
  pose proof (password_cases _ _ Hu) as Hpw.
  rewrite enter_eq by reflexivity. cbv zeta.
  unfold password_absent, passcode_present, passcodeCredentials, apiKeyCredentials,
    passwordCredentials.
  cbn [auth_payload with_session_id]. rewrite Hp, Hn. cbn [rbind].
  set (sid := cached_session_id _ st).
  assert (truthy_str sid = bool_decide (sid ≠ None)) as Hsid.
  { destruct sid as [s|] eqn:E; [|done].
    subst sid. by rewrite (cached_session_id_truthy _ _ _ E). }
  rewrite Hsid.
  unfold hash_types.
  destruct (dict_lookup "password" fields) as [v|] eqn:Hv; rewrite Hpw.
  - split; [|by intros [? _]].
    destruct (truthy _ && _); [done|].
    destruct v; try (cbn [hash_type_loop]; rewrite Hpw; done).
    rewrite (hash_type_loop_str _ _ _ Hpw).
    by destruct (existsb _ _).
  - destruct (truthy _) eqn:Ht; cbn [andb].
    + destruct sid; cbn.
      * split; [done|]. intros [_ [?|?]]; done.
      * rewrite Hpw. split; [auto|done].
    + cbn [hash_type_loop]. rewrite Hpw. split; [auto|done].
Qed.

Lemma missing_credential_iff_witness :
  fst (select_credentials Demo.lib Demo.alice_passcode Demo.fresh) =
    Raise (Unauthorized MissingPassword).
Proof.
  apply (missing_credential_iff Demo.lib Demo.alice_passcode _ Demo.fresh eq_refl).
  split; [reflexivity|right; reflexivity].
Defined.

(** ** Effects of the pieces *)

Lemma same_process_refl st : same_process st st.
Proof. by repeat split. Qed.

Lemma same_process_trans st1 st2 st3 :
  same_process st1 st2 → same_process st2 st3 → same_process st1 st3.
Proof. unfold same_process. intros (?&?&?&?&?) (?&?&?&?&?). repeat split; congruence. Qed.

Lemma set_if_same key value st : same_process st (snd (set_if key value st)).
Proof. unfold set_if. by destruct (truthy value). Qed.

Lemma set_if_ok key value st : fst (set_if key value st) = Ok ().
Proof. unfold set_if. by destruct (truthy value). Qed.

Lemma set_federation_env_ok u e d tn ti o st :
  fst (set_federation_env u e d tn ti o st) = Ok ().
Proof.
  unfold set_federation_env, bind, set_if, set_environ, ret.
  by repeat (destruct (truthy _); cbn).
Qed.

Lemma set_federation_env_same u e d tn ti o st :
  same_process st (snd (set_federation_env u e d tn ti o st)).
Proof.
  unfold set_federation_env, bind, set_if, set_environ, ret.
  by repeat (destruct (truthy _); cbn).
Qed.

(** The translator either raises and leaves the state as it was, or
    returns and changed [environ] only. *)
Lemma parse_service_catalog_cases sc st :
  match federation_attributes sc with
  | Ok (u, e, d, tn, ti, o) =>
      parse_service_catalog sc st = (Ok (), snd (set_federation_env u e d tn ti o st))
  | Raise (KeyError k) =>
      parse_service_catalog sc st = (Raise (Unauthorized (CatalogParse k)), st)
  | Raise e => parse_service_catalog sc st = (Raise e, st)
  end.
Proof.
  unfold parse_service_catalog.
  destruct (federation_attributes sc) as [[[[[[u e] d] tn] ti] o]|e].
  - pose proof (set_federation_env_ok u e d tn ti o st).
    by destruct (set_federation_env u e d tn ti o st) as [[] ?]; simplify_eq/=.
  - by destruct e.
Qed.

Lemma parse_service_catalog_same sc st :
  same_process st (snd (parse_service_catalog sc st)).
Proof.
  pose proof (parse_service_catalog_cases sc st) as H.
  destruct (federation_attributes sc) as [[[[[[u e] d] tn] ti] o]|e].
  - rewrite H. apply set_federation_env_same.
  - destruct e; rewrite H; apply same_process_refl.
Qed.

Lemma parse_service_catalog_raise sc st e :
  fst (parse_service_catalog sc st) = Raise e →
  snd (parse_service_catalog sc st) = st.
Proof.
  pose proof (parse_service_catalog_cases sc st) as H.
  destruct (federation_attributes sc) as [[[[[[u e'] d] tn] ti] o]|e'].
  - by rewrite H.
  - by destruct e'; rewrite H.
Qed.

Lemma cached_catalog_eq lib w self st :
  cached_catalog lib w self st =
    match RXT_SERVICE_CACHE st !! hashed_auth_payload self with
    | Some sc =>
        if truthy sc then
          match catalog_expires sc with
          | Raise (KeyError _) => (Ok false, evicted self st)
          | Raise e => (Raise e, st)
          | Ok expires =>
              match token_expire lib expires with
              | Raise e => (Raise e, st)
              | Ok t =>
                  if Z.ltb (now w) t then
                    match parse_service_catalog sc st with
                    | (Ok _, st') => (Ok true, st')
                    | (Raise e, st') => (Raise e, st')
                    end
                  else (Ok false, evicted self st)
              end
          end
        else (Ok false, st)
    | None => (Ok false, st)
    end.
Proof.
  unfold cached_catalog, bind at 1, service_cache_get, evicted.
  destruct (RXT_SERVICE_CACHE st !! hashed_auth_payload self) as [sc|]; [|done].
  destruct (truthy sc); [|done].
  destruct (catalog_expires sc) as [expires|[]]; try done.
  unfold bind, lift, ret.
  destruct (token_expire lib expires); [|done].
  destruct (Z.ltb _ _); [|done].
  by destruct (parse_service_catalog sc st) as [[] ?].
Qed.

Lemma exchange_eq w self auth_data st :
  exchange w self auth_data st =
    let st1 := logged auth_data st in
    match post w auth_data (rxt_headers st) with
    | Raise e => (Raise e, st1)
    | Ok r =>
        match mfa_challenge r with
        | Some header => (Ok true, header_cached self header st1)
        | None =>
            match raise_for_status r with
            | Raise e => (Raise e, st1)
            | Ok _ =>
                match response_json r with
                | Raise e => (Raise e, st1)
                | Ok sc =>
                    match parse_service_catalog sc st1 with
                    | (Ok _, st2) => (Ok false, catalog_cached self sc st2)
                    | (Raise e, st2) => (Raise e, st2)
                    end
                end
            end
        end
    end.
Proof.
  unfold exchange, bind at 1, session_post. fold (logged auth_data st). cbv zeta.
  destruct (post w auth_data (rxt_headers st)) as [r|]; [|done].
  destruct (mfa_challenge r) as [header|]; [done|].
  unfold bind, lift, ret.
  destruct (raise_for_status r); [|done].
  destruct (response_json r) as [sc|]; [|done].
  by destruct (parse_service_catalog sc (logged auth_data st)) as [[] ?].
Qed.

Lemma rxt_auth_inner_eq lib w self auth_data auth_type st :
  _rxt_auth lib w self auth_data auth_type st =
    match cached_catalog lib w self st with
    | (Ok true, st') => (Ok false, st')
    | (Ok false, st') =>
        if truthy_str (session_id self) && String.eqb auth_type "passwordCredentials"
        then (Ok true, st')
        else exchange w self auth_data st'
    | (Raise e, st') => (Raise e, st')
    end.
Proof.
  unfold _rxt_auth, bind.
  destruct (cached_catalog lib w self st) as [[[]|] ?]; try done.
  unfold ret. by destruct (_ && _).
Qed.

(** The look at the service cache never touches the session cache, the
    headers or the log of POSTs. *)
Lemma cached_catalog_frame lib w self st :
  let st' := snd (cached_catalog lib w self st) in
  RXT_SESSION_CACHE st' = RXT_SESSION_CACHE st ∧
  rxt_headers st' = rxt_headers st ∧
  session_closes st' = session_closes st ∧
  posted st' = posted st.
Proof.
  rewrite cached_catalog_eq.
  destruct (RXT_SERVICE_CACHE st !! hashed_auth_payload self) as [sc|]; [|done].
  destruct (truthy sc); [|done].
  destruct (catalog_expires sc) as [expires|[]]; try done.
  destruct (token_expire lib expires); [|done].
  destruct (Z.ltb _ _); [|done].
  pose proof (parse_service_catalog_same sc st) as (?&?&?&?&?).
  by destruct (parse_service_catalog sc st) as [[] ?].
Qed.

(** A look that found nothing to serve leaves nothing to serve. *)
Lemma cached_catalog_miss lib w self st :
  fst (cached_catalog lib w self st) = Ok false →
  no_catalog self (snd (cached_catalog lib w self st)).
Proof.
  rewrite cached_catalog_eq. unfold no_catalog.
  destruct (RXT_SERVICE_CACHE st !! hashed_auth_payload self) as [sc|] eqn:Hsc;
    [|by cbn; rewrite Hsc].
  destruct (truthy sc) eqn:Htr; [|by cbn; rewrite Hsc, Htr].
  destruct (catalog_expires sc) as [expires|[]]; try done.
  - destruct (token_expire lib expires); [|done].
    destruct (Z.ltb _ _).
    + by destruct (parse_service_catalog sc st) as [[] ?].
    + intros _. cbn. by rewrite lookup_delete_eq.
  - intros _. cbn. by rewrite lookup_delete_eq.
Qed.

Lemma no_catalog_miss lib w self st :
  no_catalog self st → cached_catalog lib w self st = (Ok false, st).
Proof.
  unfold no_catalog. rewrite cached_catalog_eq.
  destruct (RXT_SERVICE_CACHE st !! hashed_auth_payload self) as [sc|]; [|done].
  by intros ->.
Qed.

Lemma no_catalog_ext self self' st st' :
  hashed_auth_payload self' = hashed_auth_payload self →
  RXT_SERVICE_CACHE st' = RXT_SERVICE_CACHE st →
  no_catalog self st → no_catalog self' st'.
Proof. unfold no_catalog. by intros -> ->. Qed.

(** *** Which exceptions reading the catalog can raise *)

Lemma getitem_raise d k e : getitem d k = Raise e → data_error e.
Proof. unfold getitem. repeat case_match; by intros [= <-]. Qed.

Lemma rbind_raise {A B} (r : result A) (k : A → result B) e (P : exn → Prop) :
  (r <~ r ;; k r) = Raise e →
  (r = Raise e → P e) → (∀ a, r = Ok a → k a = Raise e → P e) → P e.
Proof. destruct r; cbn; intros; simplify_eq; eauto. Qed.

Lemma role_name_raise i e : role_name i = Raise e → data_error e.
Proof.
  unfold role_name. intros H. eapply rbind_raise; [exact H|..].
  - apply getitem_raise.
  - intros []; try done; by intros _ [= <-].
Qed.

Lemma map_result_raise {A B} (f : A → result B) l e (P : exn → Prop) :
  (∀ x, f x = Raise e → P e) → map_result f l = Raise e → P e.
Proof.
  intros Hf. induction l as [|x l IH]; [done|]. cbn [map_result].
  intros H. eapply rbind_raise; [exact H|apply Hf|]. intros y _ H'.
  eapply rbind_raise; [exact H'|apply IH|done].
Qed.

Lemma py_iter_raise v e : py_iter v = Raise e → data_error e.
Proof. destruct v; try done; by intros [= <-]. Qed.

Lemma access_user_roles_raise sc e : access_user_roles sc = Raise e → data_error e.
Proof.
  unfold access_user_roles. intros H.
  repeat (eapply rbind_raise; [exact H|apply getitem_raise|]; clear H; intros ? _ H).
  eapply rbind_raise; [exact H|apply py_iter_raise|]; clear H; intros ? _ H.
  eapply rbind_raise; [exact H| |done].
  apply map_result_raise. intros x. apply role_name_raise.
Qed.

Lemma federation_attributes_raise sc e :
  federation_attributes sc = Raise e → data_error e.
Proof.
  unfold federation_attributes. intros H.
  repeat (eapply rbind_raise; [exact H|apply getitem_raise|]; clear H; intros ? _ H).
  eapply rbind_raise; [exact H|apply access_user_roles_raise|]; clear H; intros ? _ H.
  repeat (eapply rbind_raise; [exact H|apply getitem_raise|]; clear H; intros ? _ H).
  eapply rbind_raise; [exact H| |]; clear H.
  { intros H. eapply rbind_raise; [exact H|apply getitem_raise|].
    intros ? _. apply getitem_raise. }
  intros ? _ H.
  eapply rbind_raise; [exact H| |done]; clear H.
  intros H. eapply rbind_raise; [exact H|apply getitem_raise|].
  intros ? _. apply getitem_raise.
Qed.

(** What the translator raises is its own [Unauthorized] or a type
    error; in either case nothing was written. *)
Lemma parse_service_catalog_raises sc st e :
  fst (parse_service_catalog sc st) = Raise e →
  (∃ k, e = Unauthorized (CatalogParse k)) ∨ e = TypeError ∨ e = AttributeError.
Proof.
  pose proof (parse_service_catalog_cases sc st) as H.
  destruct (federation_attributes sc) as [[[[[[? ?] ?] ?] ?] ?]|e'] eqn:Hfa.
  - by rewrite H.
  - apply federation_attributes_raise in Hfa.
    destruct e'; try done; rewrite H; intros [= <-]; eauto.
Qed.

(** What an exchange that ends in [requests.HTTPError] did: it logged
    the POST, and upstream answered with an HTTP error. *)
Lemma exchange_http_error w self auth_data st s st' :
  exchange w self auth_data st = (Raise (HTTPError s), st') →
  st' = logged auth_data st ∧ http_failure (post w auth_data (rxt_headers st)).
Proof.
  rewrite exchange_eq. cbv zeta. unfold http_failure.
  destruct (post w auth_data (rxt_headers st)) as [r|e].
  - destruct (mfa_challenge r) as [header|] eqn:Hc; [done|].
    unfold raise_for_status.
    destruct (Z.leb 400 (status_code r) && Z.ltb (status_code r) 600) eqn:Hs.
    + intros [= <- <-]. split; [done|]. split; [done|].
      apply andb_true_iff in Hs as [?%Z.leb_le ?%Z.ltb_lt]. lia.
    + unfold response_json. destruct (body r) as [sc|]; [|done].
      pose proof (parse_service_catalog_raises sc (logged auth_data st)) as H.
      destruct (parse_service_catalog sc (logged auth_data st)) as [[|e] ?]; [done|].
      intros [= -> <-]. by destruct (H _ eq_refl) as [[? ?]|[?|?]].
  - by intros [= -> <-].
Qed.

Lemma http_failure_exchange w self auth_data st :
  http_failure (post w auth_data (rxt_headers st)) →
  ∃ s, exchange w self auth_data st = (Raise (HTTPError s), logged auth_data st).
Proof.
  rewrite exchange_eq. cbv zeta. unfold http_failure.
  destruct (post w auth_data (rxt_headers st)) as [r|[]]; try done; [|eauto].
  intros [-> Hs]. unfold raise_for_status.
  destruct (Z.leb 400 (status_code r) && Z.ltb (status_code r) 600) eqn:Hb; [eauto|].
  apply andb_false_iff in Hb as [?%Z.leb_gt|?%Z.ltb_ge]; lia.
Qed.

Lemma exchange_posted w self auth_data st :
  posted (snd (exchange w self auth_data st)) =
    (posted st ++ [(auth_data, rxt_headers st)])%list.
Proof.
  rewrite exchange_eq. cbv zeta.
  destruct (post w auth_data (rxt_headers st)) as [r|]; [|done].
  destruct (mfa_challenge r); [done|].
  destruct (raise_for_status r); [|done].
  destruct (response_json r) as [sc|]; [|done].
  pose proof (parse_service_catalog_same sc (logged auth_data st)) as (?&?&?&?&Hp).
  destruct (parse_service_catalog sc (logged auth_data st)) as [[] ?]; cbn in *; by rewrite Hp.
Qed.

Lemma exchange_headers w self auth_data st :
  rxt_headers (snd (exchange w self auth_data st)) = rxt_headers st.
Proof.
  rewrite exchange_eq. cbv zeta.
  destruct (post w auth_data (rxt_headers st)) as [r|]; [|done].
  destruct (mfa_challenge r); [done|].
  destruct (raise_for_status r); [|done].
  destruct (response_json r) as [sc|]; [|done].
  pose proof (parse_service_catalog_same sc (logged auth_data st)) as (?&?&Hh&?&?).
  destruct (parse_service_catalog sc (logged auth_data st)) as [[] ?]; cbn in *; by rewrite Hh.
Qed.

(** ** The selector's result *)

Lemma enter_inv rxt0 st rxt st0 :
  rxt_auth_payload rxt0 = None →
  __enter__ rxt0 st = (Ok rxt, st0) →
  auth_payload rxt = auth_payload rxt0 ∧
  hashed_auth_payload rxt = hashed_auth_payload rxt0 ∧
  hashed_auth_user rxt = hashed_auth_user rxt0 ∧
  session_id rxt = cached_session_id rxt0 st ∧
  (∃ kind data, rxt_auth_payload rxt = Some (kind, data)) ∧
  RXT_SESSION_CACHE st0 = RXT_SESSION_CACHE st ∧
  RXT_SERVICE_CACHE st0 = RXT_SERVICE_CACHE st ∧
  session_closes st0 = session_closes st ∧
  environ st0 = environ st ∧
  posted st0 = posted st ∧
  (rxt_headers st0 = rxt_headers st ∨
   ∃ sid, cached_session_id rxt0 st = Some sid ∧
          rxt_headers st0 = <["X-SessionId" := sid]> (rxt_headers st)).
Proof.
  intros Hnone. rewrite enter_eq by done. cbv zeta.
  destruct (_passcode (auth_payload rxt0)) as [passcode|]; [|done].
  destruct (truthy passcode && truthy_str (cached_session_id rxt0 st)) eqn:Hb.
  - destruct (passcodeCredentials _) as [[kind data]|]; [|done].
    intros [= <- <-]. cbn. repeat split; eauto.
    right. apply andb_true_iff in Hb as [_ Hs].
    destruct (cached_session_id rxt0 st) as [sid|]; [eauto|done].
  - destruct (hash_type_loop _ _) as [[]|]; [| |done].
    + destruct (apiKeyCredentials _) as [[kind data]|]; [|done].
      intros [= <- <-]. cbn. repeat split; eauto.
    + destruct (passwordCredentials _) as [[kind data]|]; [|done].
      intros [= <- <-]. cbn. repeat split; eauto.
Qed.

Lemma select_credentials_inv lib payload st rxt st0 :
  select_credentials lib payload st = (Ok rxt, st0) →
  ∃ rxt0, __init__ lib payload = Ok rxt0 ∧ __enter__ rxt0 st = (Ok rxt, st0) ∧
          rxt_auth_payload rxt0 = None ∧ auth_payload rxt0 = payload.
Proof.
  unfold select_credentials, bind, lift.
  destruct (__init__ lib payload) as [rxt0|] eqn:Hinit; [|done].
  intros H. exists rxt0. repeat split; [done|..].
  all: by apply init_inv in Hinit as (?&?&?&?&->).
Qed.

Lemma passwordCredentials_kind self creds :
  passwordCredentials self = Ok creds → fst creds = "passwordCredentials".
Proof.
  unfold passwordCredentials, rbind. repeat case_match; try done. by intros [= <-].
Qed.

Lemma passwordCredentials_ext self self' :
  auth_payload self' = auth_payload self →
  passwordCredentials self' = passwordCredentials self.
Proof. unfold passwordCredentials. by intros ->. Qed.

(** Whoever was given API-key credentials has a password to fall back on. *)
Lemma apiKey_has_password rxt0 st rxt st0 data :
  rxt_auth_payload rxt0 = None →
  __enter__ rxt0 st = (Ok rxt, st0) →
  rxt_auth_payload rxt = Some ("apiKeyCredentials", data) →
  ∃ password_data, passwordCredentials rxt = Ok ("passwordCredentials", password_data).
Proof.
  intros Hnone. rewrite enter_eq by done. cbv zeta.
  destruct (_passcode (auth_payload rxt0)) as [passcode|]; [|done].
  destruct (truthy passcode && _).
  - unfold passcodeCredentials. destruct (_passcode _); [|done].
    by intros [= <- <-].
  - destruct (hash_type_loop _ _) as [[]|]; [| |done].
    + unfold apiKeyCredentials, passwordCredentials. cbn [auth_payload with_session_id].
      destruct (_username _) eqn:Hu; [|done]. destruct (_password _) eqn:Hpw; [|done].
      cbn. intros [= <- <-] _. cbn. rewrite Hu, Hpw. cbn. eauto.
    + destruct (passwordCredentials _) as [[kind d]|] eqn:Hp; [|done].
      apply passwordCredentials_kind in Hp. cbn in Hp. subst kind.
      by intros [= <- <-].
Qed.

(** ** The orchestrator *)

Lemma rxt_auth_step n lib w self st :
  rxt_auth (S n) lib w self st =
    match rxt_auth_payload self with
    | None => (Raise TypeError, st)
    | Some (auth_type, auth_data) =>
        match _rxt_auth lib w self auth_data auth_type st with
        | (Raise (HTTPError _), st') =>
            if String.eqb auth_type "apiKeyCredentials" then
              match passwordCredentials self with
              | Ok creds => rxt_auth n lib w (with_rxt_auth_payload self creds) st'
              | Raise e => (Raise e, st')
              end
            else (Raise (Unauthorized (AuthFailed auth_type)), st')
        | (Raise e, st') => (Raise e, st')
        | (Ok mfa, st') =>
            if mfa then (Ok mfa_pending, st') else return_auth_handler w self st'
        end
    end.
Proof.
  cbn [rxt_auth]. destruct (rxt_auth_payload self) as [[auth_type auth_data]|]; [|done].
  by destruct (_rxt_auth _ _ _ _ _ _) as [[mfa|[]] st'].
Qed.

(** A call that does not hold API-key credentials never calls itself. *)
Lemma rxt_auth_no_retry n lib w self st auth_type auth_data :
  rxt_auth_payload self = Some (auth_type, auth_data) →
  String.eqb auth_type "apiKeyCredentials" = false →
  rxt_auth (S n) lib w self st = rxt_auth 1 lib w self st.
Proof.
  intros Hp Hk. rewrite !rxt_auth_step, Hp, Hk.
  by destruct (_rxt_auth _ _ _ _ _ _) as [[mfa|[]] st'].
Qed.

(** Two frames are all [rxt_auth] ever needs: the retry holds password
    credentials and cannot retry again. *)
Lemma rxt_auth_depth n lib w self st :
  rxt_auth (S (S n)) lib w self st = rxt_auth 2 lib w self st.
Proof.
  rewrite (rxt_auth_step (S n)), (rxt_auth_step 1).
  destruct (rxt_auth_payload self) as [[auth_type auth_data]|]; [|done].
  destruct (_rxt_auth _ _ _ _ _ _) as [[mfa|[]] st']; try done.
  destruct (String.eqb _ _); [|done].
  destruct (passwordCredentials self) as [creds|] eqn:Hc; [|done].
  apply passwordCredentials_kind in Hc. destruct creds as [kind data]. cbn in Hc.
  subst kind. by rewrite (rxt_auth_no_retry n _ _ _ _ "passwordCredentials" data).
Qed.

Lemma recursion_limit_enough : ∃ n, recursion_limit = S (S n).
Proof. by exists 998%nat. Qed.

Lemma rackspace_login_eq lib w payload st rxt st0 :
  select_credentials lib payload st = (Ok rxt, st0) →
  rackspace_login lib w payload st =
    (fst (rxt_auth 2 lib w rxt st0), closed (snd (rxt_auth 2 lib w rxt st0))).
Proof.
  intros (rxt0 & Hinit & Henter & _ & _)%select_credentials_inv.
  unfold rackspace_login, bind, lift. rewrite Hinit, Henter.
  destruct recursion_limit_enough as [n ->]. rewrite rxt_auth_depth.
  by destruct (rxt_auth 2 lib w rxt st0).
Qed.

(** The look at the service cache raises nothing the module catches. *)
Lemma catalog_expires_raise sc e : catalog_expires sc = Raise e → data_error e.
Proof.
  unfold catalog_expires. intros H.
  repeat (eapply rbind_raise; [exact H|apply getitem_raise|]; clear H; intros ? _ H).
  by apply getitem_raise in H.
Qed.

Lemma cached_catalog_raises lib w self st e :
  fst (cached_catalog lib w self st) = Raise e → ¬ handled e.
Proof.
  rewrite cached_catalog_eq.
  destruct (RXT_SERVICE_CACHE st !! hashed_auth_payload self) as [sc|]; [|done].
  destruct (truthy sc); [|done].
  destruct (catalog_expires sc) as [expires|e'] eqn:He.
  - unfold token_expire.
    destruct expires as [|?|?|str|?|?]; try (intros [= <-]; cbn; tauto).
    destruct (parser_parse lib str) as [t|]; [|intros [= <-]; cbn; tauto].
    destruct (Z.ltb _ _); [|done].
    pose proof (parse_service_catalog_raises sc st) as H.
    destruct (parse_service_catalog sc st) as [[|e'] ?]; [done|].
    intros [= <-]. destruct (H _ eq_refl) as [[? ->]|[->| ->]]; cbn; tauto.
  - apply catalog_expires_raise in He.
    destruct e'; try done; intros [= <-]; cbn; tauto.
Qed.

(** The first attempt of a fallback, taken apart. *)
Lemma failed_attempt lib w self auth_data st s st1 :
  _rxt_auth lib w self auth_data "apiKeyCredentials" st = (Raise (HTTPError s), st1) →
  ∃ st', cached_catalog lib w self st = (Ok false, st') ∧
         st1 = logged auth_data st' ∧
         http_failure (post w auth_data (rxt_headers st')).
Proof.
  rewrite rxt_auth_inner_eq.
  pose proof (cached_catalog_raises lib w self st) as Hr.
  destruct (cached_catalog lib w self st) as [[[]|e] st']; [done| |].
  - rewrite andb_false_r. intros [-> ?]%exchange_http_error. eauto.
  - intros [= -> <-]. by destruct (Hr _ eq_refl).
Qed.

Lemma rxt_auth_last lib w self st auth_type auth_data :
  rxt_auth_payload self = Some (auth_type, auth_data) →
  String.eqb auth_type "apiKeyCredentials" = false →
  rxt_auth 1 lib w self st =
    match _rxt_auth lib w self auth_data auth_type st with
    | (Raise (HTTPError _), st') => (Raise (Unauthorized (AuthFailed auth_type)), st')
    | (Raise e, st') => (Raise e, st')
    | (Ok mfa, st') =>
        if mfa then (Ok mfa_pending, st') else return_auth_handler w self st'
    end.
Proof. intros Hp Hk. by rewrite rxt_auth_step, Hp, Hk. Qed.

Lemma rxt_auth_last_state lib w self st auth_type auth_data :
  rxt_auth_payload self = Some (auth_type, auth_data) →
  String.eqb auth_type "apiKeyCredentials" = false →
  snd (rxt_auth 1 lib w self st) = snd (_rxt_auth lib w self auth_data auth_type st).
Proof.
  intros Hp Hk. rewrite (rxt_auth_last _ _ _ _ _ _ Hp Hk).
  by destruct (_rxt_auth _ _ _ _ _ _) as [[[]|[]] ?].
Qed.

Lemma exchanges_one st st' x :
  posted st' = (posted st ++ [x])%list → exchanges st st' = [x].
Proof. unfold exchanges. intros ->. by rewrite drop_app_length. Qed.

Lemma exchanges_two st st' x y :
  posted st' = ((posted st ++ [x]) ++ [y])%list → exchanges st st' = [x; y].
Proof.
  unfold exchanges. intros ->. by rewrite <- app_assoc, drop_app_length.
Qed.

Lemma exchanges_none st st' : posted st' = posted st → exchanges st st' = [].
Proof. unfold exchanges. intros ->. apply drop_all. Qed.

(** ** C2: the fallback from API key to password *)

(** What [rxt_auth] does once the API-key attempt ended in an HTTP
    error. *)
Lemma rxt_auth_fallback lib w rxt st0 api_data s st1 password_data :
  rxt_auth_payload rxt = Some ("apiKeyCredentials", api_data) →
  _rxt_auth lib w rxt api_data "apiKeyCredentials" st0 = (Raise (HTTPError s), st1) →
  passwordCredentials rxt = Ok ("passwordCredentials", password_data) →
  let retry := with_rxt_auth_payload rxt ("passwordCredentials", password_data) in
  posted st1 = (posted st0 ++ [(api_data, rxt_headers st0)])%list ∧
  rxt_headers st1 = rxt_headers st0 ∧
  rxt_auth 2 lib w rxt st0 =
    if truthy_str (session_id rxt) then (Ok mfa_pending, st1)
    else
      match exchange w retry password_data st1 with
      | (Raise (HTTPError _), st2) =>
          (Raise (Unauthorized (AuthFailed "passwordCredentials")), st2)
      | (Raise e, st2) => (Raise e, st2)
      | (Ok mfa, st2) =>
          if mfa then (Ok mfa_pending, st2) else return_auth_handler w retry st2
      end.
Proof.
  intros Hp H1 Hpw retry.
  destruct (failed_attempt _ _ _ _ _ _ _ H1) as (st' & Hc & -> & Hfail).
  pose proof (cached_catalog_frame lib w rxt st0) as Hframe.
  pose proof (cached_catalog_miss lib w rxt st0) as Hmiss.
  rewrite Hc in Hframe, Hmiss. cbn in Hframe, Hmiss.
  destruct Hframe as (_ & Hh & _ & Hposted).
  split; [by cbn; rewrite Hposted, Hh|]. split; [done|].
  rewrite rxt_auth_step, Hp, H1. cbn [String.eqb Ascii.eqb Bool.eqb]. rewrite Hpw.
  fold retry.
  rewrite (rxt_auth_last _ _ retry _ "passwordCredentials" password_data) by done.
  rewrite rxt_auth_inner_eq.
  rewrite (no_catalog_miss lib w retry (logged api_data st')).
  2:{ eapply no_catalog_ext; [| |exact (Hmiss eq_refl)]; done. }
  subst retry. cbn [session_id with_rxt_auth_payload]. cbn [String.eqb Ascii.eqb Bool.eqb].
  rewrite andb_true_r. by destruct (truthy_str (session_id rxt)).
Qed.

(** C2 (amended).  When the exchange of an API-key attempt fails with an
    HTTP error, [rxt_auth] calls itself exactly once, holding password
    credentials, and never again: two frames give the result of any
    deeper limit.  The retry starts over at the look into the service
    cache, not at the exchange.  So with a session identifier cached for
    the user the retry answers "MFA pending" and the API-key POST stays
    the call's only one; without one the call makes exactly one more
    POST, with the password credentials and the same headers, and an
    HTTP error of that one ends the call with [Unauthorized]. *)
Theorem fallback_once lib w payload st rxt st0 api_data s st1 :
  select_credentials lib payload st = (Ok rxt, st0) →
  rxt_auth_payload rxt = Some ("apiKeyCredentials", api_data) →
  _rxt_auth lib w rxt api_data "apiKeyCredentials" st0 = (Raise (HTTPError s), st1) →
  ∃ password_data,
    passwordCredentials rxt = Ok ("passwordCredentials", password_data) ∧
    (∀ n, rxt_auth (S (S n)) lib w rxt st0 = rxt_auth 2 lib w rxt st0) ∧
    let out := rackspace_login lib w payload st in
    match session_id rxt with
    | Some _ =>
        fst out = Ok mfa_pending ∧
        exchanges st (snd out) = [(api_data, rxt_headers st0)]
    | None =>
        exchanges st (snd out) =
          [(api_data, rxt_headers st0); (password_data, rxt_headers st0)] ∧
        (http_failure (post w password_data (rxt_headers st0)) →
         fst out = Raise (Unauthorized (AuthFailed "passwordCredentials")))
    end.
Proof.
  intros Hsel Hp H1.
  destruct (select_credentials_inv _ _ _ _ _ Hsel) as (rxt0 & Hinit & Henter & Hnone & _).
  destruct (apiKey_has_password _ _ _ _ _ Hnone Henter Hp) as [password_data Hpw].
  destruct (enter_inv _ _ _ _ Hnone Henter) as (_&_&_&Hsid&_&_&_&_&_&Hposted&_).
  exists password_data. split; [done|]. split; [intros n; apply rxt_auth_depth|].
  cbv zeta. rewrite (rackspace_login_eq _ _ _ _ _ _ Hsel). cbn [fst snd].
  destruct (rxt_auth_fallback _ _ _ _ _ _ _ _ Hp H1 Hpw) as (Hposted1 & Hh1 & ->).
  destruct (session_id rxt) as [sid|] eqn:Hs.
  - rewrite (cached_session_id_truthy rxt0 st sid) by done.
    split; [done|]. apply exchanges_one. cbn. by rewrite Hposted1, Hposted.
  - cbn [truthy_str].
    set (retry := with_rxt_auth_payload rxt _).
    pose proof (exchange_posted w retry password_data st1) as Hposted2.
    rewrite Hposted1, Hh1, Hposted in Hposted2.
    split.
    + apply exchanges_two.
      destruct (exchange w retry password_data st1) as [[[]|[]] st2]; by cbn in *.
    + rewrite <- Hh1. intros [s' ->]%(http_failure_exchange w retry). done.
Qed.

Lemma fallback_once_witness :
  fst (rackspace_login Demo.lib (Demo.world 1600000000 Demo.forbids)
         Demo.alice_api_key Demo.fresh) =
    Raise (Unauthorized (AuthFailed "passwordCredentials")) ∧
  fst (rackspace_login Demo.lib (Demo.world 1600000000 Demo.forbids)
         Demo.alice_api_key Demo.challenged) = Ok mfa_pending.
Proof.
  split.
  - edestruct (fallback_once Demo.lib (Demo.world 1600000000 Demo.forbids)
                 Demo.alice_api_key Demo.fresh) as (pd & Hpd & _ & H);
      [reflexivity..|].
    injection Hpd as <-. vm_compute in H. vm_compute. apply H.
    split; [reflexivity|]. split; [discriminate|reflexivity].
  - edestruct (fallback_once Demo.lib (Demo.world 1600000000 Demo.forbids)
                 Demo.alice_api_key Demo.challenged) as (pd & Hpd & _ & H);
      [reflexivity..|].
    vm_compute in H. vm_compute. apply H.
Defined.

(** With a session identifier cached for alice, the failed API-key
    attempt is followed by no POST at all. *)
Lemma fallback_counterexample :
  ¬ fallback_as_stated Demo.lib (Demo.world 1600000000 Demo.forbids)
      Demo.alice_api_key Demo.challenged.
Proof.
  intros H. edestruct H as (pd & _ & Hex & _); [reflexivity..|].
  vm_compute in Hex. discriminate Hex.
Qed.

(** ** One attempt *)

Lemma enter_raise rxt0 st e st0 :
  rxt_auth_payload rxt0 = None → __enter__ rxt0 st = (Raise e, st0) → st0 = st.
Proof.
  intros Hnone. rewrite enter_eq by done. cbv zeta.
  repeat case_match; by intros [= _ <-].
Qed.

Lemma select_credentials_raise lib payload st e st0 :
  select_credentials lib payload st = (Raise e, st0) → st0 = st.
Proof.
  unfold select_credentials, bind, lift.
  destruct (__init__ lib payload) as [rxt0|] eqn:Hinit; [|by intros [= _ <-]].
  apply enter_raise. by apply init_inv in Hinit as (?&?&?&?&->).
Qed.

Lemma rackspace_login_select_raise lib w payload st e st0 :
  select_credentials lib payload st = (Raise e, st0) →
  rackspace_login lib w payload st = (Raise e, st).
Proof.
  intros Hsel. pose proof (select_credentials_raise _ _ _ _ _ Hsel) as ->.
  revert Hsel. unfold select_credentials, rackspace_login, bind, lift.
  destruct (__init__ lib payload) as [rxt0|]; [|by intros [= ->]].
  destruct (__enter__ rxt0 st) as [[] ?]; intros H; [discriminate H|].
  by injection H as -> ->.
Qed.

(** One pass through [_rxt_auth] makes at most one POST, with the
    credentials it was given and the headers of the moment. *)
Lemma attempt_posted lib w self auth_data auth_type st :
  let st' := snd (_rxt_auth lib w self auth_data auth_type st) in
  rxt_headers st' = rxt_headers st ∧
  (posted st' = posted st ∨
   posted st' = (posted st ++ [(auth_data, rxt_headers st)])%list).
Proof.
  cbv zeta. rewrite rxt_auth_inner_eq.
  pose proof (cached_catalog_frame lib w self st) as (_ & Hh & _ & Hp).
  destruct (cached_catalog lib w self st) as [[[]|] st1]; cbn in Hh, Hp; [by auto| |by auto].
  destruct (_ && _); [by auto|].
  rewrite exchange_headers, exchange_posted, Hh, Hp. auto.
Qed.

(** An attempt whose POST was answered with a challenge cached the
    header under the user's fingerprint and reported "MFA pending". *)
Lemma attempt_challenge lib w self auth_data auth_type st d h resp header :
  (d, h) ∈ exchanges st (snd (_rxt_auth lib w self auth_data auth_type st)) →
  post w d h = Ok resp → mfa_challenge resp = Some header →
  ∃ st', _rxt_auth lib w self auth_data auth_type st = (Ok true, st') ∧
         RXT_SESSION_CACHE st' = <[hashed_auth_user self := header]> (RXT_SESSION_CACHE st).
Proof.
  rewrite rxt_auth_inner_eq.
  pose proof (cached_catalog_frame lib w self st) as (Hs & Hh & _ & Hp).
  destruct (cached_catalog lib w self st) as [[[]|] st1]; cbn [fst snd] in *.
  1,3: by rewrite (exchanges_none _ _ Hp); intros ?%elem_of_nil.
  destruct (_ && _); cbn [fst snd].
  { by rewrite (exchanges_none _ _ Hp); intros ?%elem_of_nil. }
  rewrite (exchanges_one st _ (auth_data, rxt_headers st)).
  2:{ by rewrite exchange_posted, Hp, Hh. }
  intros [= -> ->]%list_elem_of_singleton Hpost Hc.
  rewrite exchange_eq. cbv zeta. rewrite Hh, Hpost, Hc.
  eexists. split; [done|]. cbn. by rewrite Hs.
Qed.

(** ** C5: an outstanding MFA session and no passcode *)

(** C5.  When the selector settled on password credentials while a
    SessionHeader is cached for the user (the session cache holds, under
    the user's fingerprint, a header that embeds a session identifier)
    and the look into the service cache found no catalogue to serve, the
    call answers "MFA pending" and posts nothing. *)
Theorem outstanding_session_no_exchange lib w payload st rxt st0 sid auth_data :
  select_credentials lib payload st = (Ok rxt, st0) →
  cached_session_id rxt st = Some sid →
  rxt_auth_payload rxt = Some ("passwordCredentials", auth_data) →
  fst (cached_catalog lib w rxt st0) = Ok false →
  fst (rackspace_login lib w payload st) = Ok mfa_pending ∧
  exchanges st (snd (rackspace_login lib w payload st)) = [].
Proof.
  intros Hsel Hsid Hp Hmiss.
  destruct (select_credentials_inv _ _ _ _ _ Hsel) as (rxt0 & _ & Henter & Hnone & _).
  destruct (enter_inv _ _ _ _ Hnone Henter) as (_&_&Hu&Hs&_&_&_&_&_&Hposted&_).
  assert (truthy_str (session_id rxt) = true) as Htr.
  { assert (cached_session_id rxt0 st = Some sid) as Hsid0.
    { revert Hsid. unfold cached_session_id. by rewrite Hu. }
    rewrite Hs, Hsid0. by apply (cached_session_id_truthy rxt0 st sid). }
  rewrite (rackspace_login_eq _ _ _ _ _ _ Hsel). cbn [fst snd].
  rewrite (rxt_auth_no_retry 1 _ _ _ _ _ _ Hp) by done.
  rewrite (rxt_auth_last _ _ _ _ _ _ Hp) by done.
  rewrite rxt_auth_inner_eq.
  pose proof (cached_catalog_frame lib w rxt st0) as (_ & _ & _ & Hpc).
  destruct (cached_catalog lib w rxt st0) as [r st1]. cbn in Hmiss, Hpc. subst r.
  rewrite Htr. cbn. split; [done|].
  apply exchanges_none. cbn. by rewrite Hpc.
Qed.

Lemma outstanding_session_no_exchange_witness :
  fst (rackspace_login Demo.lib (Demo.world 1600000000 Demo.succeeds)
         Demo.alice_password Demo.challenged) = Ok mfa_pending ∧
  exchanges Demo.challenged
    (snd (rackspace_login Demo.lib (Demo.world 1600000000 Demo.succeeds)
            Demo.alice_password Demo.challenged)) = [].
Proof.
  eapply (outstanding_session_no_exchange Demo.lib (Demo.world 1600000000 Demo.succeeds)
            Demo.alice_password Demo.challenged); reflexivity.
Defined.

(** ** C4: the MFA challenge *)

Lemma exchange_challenge w self d st resp header :
  post w d (rxt_headers st) = Ok resp → mfa_challenge resp = Some header →
  exchange w self d st = (Ok true, header_cached self header (logged d st)).
Proof. intros Hp Hc. rewrite exchange_eq. cbv zeta. by rewrite Hp, Hc. Qed.

Lemma exchanges_shift st st0 st' :
  posted st0 = posted st → exchanges st st' = exchanges st0 st'.
Proof. unfold exchanges. by intros ->. Qed.

Lemma exchanges_closed st st' : exchanges st (closed st') = exchanges st st'.
Proof. reflexivity. Qed.

Lemma http_failure_no_challenge r resp header :
  http_failure r → r = Ok resp → mfa_challenge resp = Some header → False.
Proof. intros H ->. cbn in H. destruct H as [-> _]. done. Qed.

(** C4.  Whenever a POST of the call was answered with status 401 and a
    WWW-Authenticate header, the call raises nothing: it answers "MFA
    pending" (status [False], no body, no data), and the session cache is
    the one before the call with the header's value stored under the
    digest of the user name. *)
Theorem mfa_challenge_cached lib w payload st auth_data headers resp header :
  (auth_data, headers) ∈ exchanges st (snd (rackspace_login lib w payload st)) →
  post w auth_data headers = Ok resp →
  status_code resp = 401 →
  www_authenticate resp = Some header →
  fst (rackspace_login lib w payload st) = Ok (mkAuthHandlerResponse false None None) ∧
  ∃ name,
    _username payload = Ok (JStr name) ∧
    RXT_SESSION_CACHE (snd (rackspace_login lib w payload st)) =
      <[sha224_hexdigest lib name := header]> (RXT_SESSION_CACHE st).
Proof.
  intros Hin Hpost H401 Hwww.
  assert (mfa_challenge resp = Some header) as Hc.
  { unfold mfa_challenge. by rewrite H401, Hwww. }
  destruct (select_credentials lib payload st) as [[rxt|e] st0] eqn:Hsel.
  2:{ rewrite (rackspace_login_select_raise _ w _ _ _ _ Hsel) in Hin. cbn [snd] in Hin.
      rewrite (exchanges_none st st) in Hin by done. by apply elem_of_nil in Hin. }
  destruct (select_credentials_inv _ _ _ _ _ Hsel) as (rxt0 & Hinit & Henter & Hnone & _).
  destruct (enter_inv _ _ _ _ Hnone Henter)
    as (_&_&Hu&Hsid&(kind&data&Hp)&Hsc&_&_&_&Hposted&_).
  destruct (init_inv _ _ _ Hinit) as (name & fields & _ & Hname & ->). cbn in Hu.
  revert Hin. rewrite (rackspace_login_eq _ _ _ _ _ _ Hsel). cbn [fst snd].
  rewrite exchanges_closed, (exchanges_shift st st0) by done.
  change (RXT_SESSION_CACHE (closed ?s)) with (RXT_SESSION_CACHE s).
  intros Hin.
  enough ((rxt_auth 2 lib w rxt st0).1 = Ok mfa_pending ∧
          RXT_SESSION_CACHE (rxt_auth 2 lib w rxt st0).2 =
            <[hashed_auth_user rxt := header]> (RXT_SESSION_CACHE st0)) as [H1 H2].
  { split; [done|]. exists name. split; [done|]. by rewrite H2, Hu, Hsc. }
  revert Hin.
  destruct (_rxt_auth lib w rxt data kind st0) as [r1 st1] eqn:Hattempt.
  assert ((auth_data, headers) ∈ exchanges st0 st1 →
          r1 = Ok true ∧
          RXT_SESSION_CACHE st1 = <[hashed_auth_user rxt := header]> (RXT_SESSION_CACHE st0))
    as Hsingle.
  { intros Hin.
    pose proof (attempt_challenge lib w rxt data kind st0 auth_data headers resp header) as H.
    rewrite Hattempt in H. by destruct (H Hin Hpost Hc) as (st' & [= -> ->] & ?). }
  assert (∀ e, r1 = Raise e → (∀ s, e = HTTPError s → String.eqb kind "apiKeyCredentials" = false) →
          snd (rxt_auth 2 lib w rxt st0) = st1) as Hraise.
  { intros e -> He. rewrite rxt_auth_step, Hp, Hattempt.
    destruct e; try done. by rewrite (He _ eq_refl). }
  destruct r1 as [mfa|e].
  - rewrite rxt_auth_step, Hp, Hattempt.
    destruct mfa; cbn [fst snd return_auth_handler].
    + intros Hin. by destruct (Hsingle Hin) as [_ ?].
    + intros Hin. by destruct (Hsingle Hin) as [? _].
  - destruct (String.eqb kind "apiKeyCredentials") eqn:Hk.
    2:{ rewrite (Hraise e eq_refl) by done. intros Hin. by destruct (Hsingle Hin). }
    assert ((∃ s, e = HTTPError s) ∨ ¬ ∃ s, e = HTTPError s) as [[s ->]|Hns].
    { destruct e; eauto; right; by intros [? ?]. }
    2:{ rewrite (Hraise e eq_refl) by (intros s ->; destruct Hns; eauto).
        intros Hin. by destruct (Hsingle Hin). }
    apply String.eqb_eq in Hk as ->.
    destruct (apiKey_has_password _ _ _ _ _ Hnone Henter Hp) as [password_data Hpw].
    destruct (failed_attempt _ _ _ _ _ _ _ Hattempt) as (st' & Hcc & Hst1 & Hfail).
    pose proof (cached_catalog_frame lib w rxt st0) as (Hs' & Hh' & _ & _).
    rewrite Hcc in Hs', Hh'. cbn in Hs', Hh'.
    destruct (rxt_auth_fallback _ _ _ _ _ _ _ _ Hp Hattempt Hpw) as (Hposted1 & Hh1 & ->).
    destruct (truthy_str (session_id rxt)); cbn [fst snd].
    + rewrite (exchanges_one st0 st1 _ Hposted1).
      intros [= -> ->]%list_elem_of_singleton. rewrite Hh' in Hfail.
      by destruct (http_failure_no_challenge _ _ _ Hfail Hpost Hc).
    + set (retry := with_rxt_auth_payload rxt _).
      pose proof (exchange_posted w retry password_data st1) as Hposted2.
      rewrite Hposted1, Hh1 in Hposted2.
      assert (exchanges st0 (snd (exchange w retry password_data st1)) =
                [(data, rxt_headers st0); (password_data, rxt_headers st0)]) as Hex.
      { by apply exchanges_two. }
      assert (∀ x, snd (match exchange w retry password_data st1 with
                    | (Raise (HTTPError _), st2) =>
                        (Raise (Unauthorized (AuthFailed "passwordCredentials")), st2)
                    | (Raise e, st2) => (Raise e, st2)
                    | (Ok mfa, st2) =>
                        if mfa then (Ok mfa_pending, st2) else return_auth_handler w retry st2
                    end) = x → snd (exchange w retry password_data st1) = x) as Hsnd.
      { intros x. by destruct (exchange w retry password_data st1) as [[[]|[]] ?]. }
      intros Hin. rewrite <- (Hsnd _ eq_refl) in Hin. rewrite Hex in Hin.
      apply elem_of_cons in Hin as [[= -> ->]|Hin].
      { rewrite Hh' in Hfail. by destruct (http_failure_no_challenge _ _ _ Hfail Hpost Hc). }
      apply list_elem_of_singleton in Hin as [= -> ->].
      rewrite <- Hh1 in Hpost.
      rewrite (exchange_challenge w retry _ _ _ _ Hpost Hc). cbn [fst snd].
      split; [done|]. cbn. by rewrite Hst1, <- Hs'.
Qed.

Lemma mfa_challenge_cached_witness :
  fst (rackspace_login Demo.lib (Demo.world 1600000000 Demo.challenges)
         Demo.alice_password Demo.fresh) = Ok (mkAuthHandlerResponse false None None) ∧
  ∃ name,
    _username Demo.alice_password = Ok (JStr name) ∧
    RXT_SESSION_CACHE
      (snd (rackspace_login Demo.lib (Demo.world 1600000000 Demo.challenges)
              Demo.alice_password Demo.fresh)) =
      <[sha224_hexdigest Demo.lib name := Demo.mfa_header]> (RXT_SESSION_CACHE Demo.fresh).
Proof.
  eapply (mfa_challenge_cached Demo.lib (Demo.world 1600000000 Demo.challenges)
            Demo.alice_password Demo.fresh).
  - vm_compute. apply list_elem_of_here.
  - reflexivity.
  - reflexivity.
  - reflexivity.
Defined.

(** ** C10: the class-level headers *)

Lemma posts_with_refl h st st' : posted st' = posted st → posts_with h st st'.
Proof. intros H. exists []. by rewrite app_nil_r. Qed.

Lemma posts_with_trans h st1 st2 st3 :
  posts_with h st1 st2 → posts_with h st2 st3 → posts_with h st1 st3.
Proof.
  intros (l1 & H1 & F1) (l2 & H2 & F2). exists (l1 ++ l2)%list.
  split; [by rewrite H2, H1, app_assoc|]. by apply Forall_app.
Qed.

Lemma posts_with_exchanges h st st' :
  posts_with h st st' → Forall (λ x, x.2 = h) (exchanges st st').
Proof. intros (l & H & F). unfold exchanges. by rewrite H, drop_app_length. Qed.

Lemma attempt_posts lib w self auth_data auth_type st :
  let st' := snd (_rxt_auth lib w self auth_data auth_type st) in
  rxt_headers st' = rxt_headers st ∧ posts_with (rxt_headers st) st st'.
Proof.
  cbv zeta. destruct (attempt_posted lib w self auth_data auth_type st) as [Hh [Hp|Hp]].
  - split; [done|]. by apply posts_with_refl.
  - split; [done|]. eexists. split; [exact Hp|]. by repeat constructor.
Qed.

(** However deep [rxt_auth] goes, it leaves the headers as they are and
    sends them with every POST. *)
Lemma rxt_auth_posts n lib w self st :
  let st' := snd (rxt_auth n lib w self st) in
  rxt_headers st' = rxt_headers st ∧ posts_with (rxt_headers st) st st'.
Proof.
  cbv zeta. revert self st. induction n as [|n IH]; intros self st.
  { split; [done|]. by apply posts_with_refl. }
  rewrite rxt_auth_step.
  destruct (rxt_auth_payload self) as [[auth_type auth_data]|].
  2:{ split; [done|]. by apply posts_with_refl. }
  pose proof (attempt_posts lib w self auth_data auth_type st) as [Hh Hp].
  destruct (_rxt_auth lib w self auth_data auth_type st) as [[mfa|e] st1]; cbn in Hh, Hp.
  - by destruct mfa.
  - destruct e; try done.
    destruct (String.eqb _ _); [|done].
    destruct (passwordCredentials self) as [creds|]; [|done].
    destruct (IH (with_rxt_auth_payload self creds) st1) as [Hh2 Hp2].
    rewrite Hh in Hh2, Hp2. split; [done|]. by eapply posts_with_trans.
Qed.

Lemma rackspace_login_headers lib w payload st :
  let st' := snd (rackspace_login lib w payload st) in
  (rxt_headers st' = rxt_headers st ∨
   ∃ sid, rxt_headers st' = <["X-SessionId" := sid]> (rxt_headers st)) ∧
  Forall (λ x, x.2 = rxt_headers st') (exchanges st st').
Proof.
  cbv zeta.
  destruct (select_credentials lib payload st) as [[rxt|e] st0] eqn:Hsel.
  2:{ rewrite (rackspace_login_select_raise _ w _ _ _ _ Hsel). cbn.
      split; [by left|]. by rewrite (exchanges_none st st). }
  destruct (select_credentials_inv _ _ _ _ _ Hsel) as (rxt0 & _ & Henter & Hnone & _).
  destruct (enter_inv _ _ _ _ Hnone Henter) as (_&_&_&_&_&_&_&_&_&Hposted&Hh0).
  rewrite (rackspace_login_eq _ _ _ _ _ _ Hsel). cbn [fst snd].
  rewrite exchanges_closed, (exchanges_shift st st0) by done.
  change (rxt_headers (closed ?s)) with (rxt_headers s).
  destruct (rxt_auth_posts 2 lib w rxt st0) as [Hh Hp]. rewrite Hh. split.
  - destruct Hh0 as [->|(sid & _ & ->)]; eauto.
  - by apply posts_with_exchanges.
Qed.

(** C10.  The headers are the process's, not the call's: a call leaves
    [rxt_headers] as it found it or with [X-SessionId] written, so no entry
    is ever removed, and every POST of a call is sent with the headers the
    process holds when the call ends.  Hence what a call sends depends on
    the calls before it: after alice authenticated with a passcode, the
    POST for bob carries her session identifier, while the same call in
    the process she has not yet used carries none. *)
Theorem shared_headers_interfere :
  (∀ lib w payload st,
     let st' := snd (rackspace_login lib w payload st) in
     (rxt_headers st' = rxt_headers st ∨
      ∃ sid, rxt_headers st' = <["X-SessionId" := sid]> (rxt_headers st)) ∧
     Forall (λ x, x.2 = rxt_headers st') (exchanges st st')) ∧
  let w := Demo.world 1600000000 Demo.succeeds in
  let before := Demo.challenged in
  let after := snd (rackspace_login Demo.lib w Demo.alice_passcode before) in
  ∃ bob_data,
    passwordCredentials (mkRXT Demo.bob_password "" "" None None) =
      Ok ("passwordCredentials", bob_data) ∧
    RXT_SESSION_CACHE after = RXT_SESSION_CACHE before ∧
    exchanges before (snd (rackspace_login Demo.lib w Demo.bob_password before)) =
      [(bob_data, ∅)] ∧
    exchanges after (snd (rackspace_login Demo.lib w Demo.bob_password after)) =
      [(bob_data, {[ "X-SessionId" := "abc123" ]})].
Proof.
  split; [apply rackspace_login_headers|].
  cbv zeta. eexists. split; [reflexivity|]. split; [|split]; vm_compute; reflexivity.
Qed.

(** ** C7: the second call *)

Lemma getitem_truthy d k v : getitem d k = Ok v → truthy d = true.
Proof. destruct d as [| | | | |fields]; try done. by destruct fields. Qed.

Lemma catalog_expires_truthy sc v : catalog_expires sc = Ok v → truthy sc = true.
Proof.
  unfold catalog_expires. destruct (getitem sc "access") eqn:H; [|done].
  intros _. by eapply getitem_truthy.
Qed.

(** A catalog the translator accepted is served from the cache for as
    long as its [expires] lies ahead. *)
Lemma cached_catalog_serve lib w self st sc attrs expires t :
  RXT_SERVICE_CACHE st !! hashed_auth_payload self = Some sc →
  federation_attributes sc = Ok attrs →
  catalog_expires sc = Ok (JStr expires) →
  parser_parse lib expires = Some t →
  now w < t →
  cached_catalog lib w self st = (Ok true, snd (parse_service_catalog sc st)).
Proof.
  intros Hsc Hfa Hexp Hparse Hnow. rewrite cached_catalog_eq, Hsc.
  rewrite (catalog_expires_truthy _ _ Hexp), Hexp. cbn [token_expire]. rewrite Hparse.
  apply Z.ltb_lt in Hnow. rewrite Hnow.
  pose proof (parse_service_catalog_cases sc st) as H. rewrite Hfa in H.
  destruct attrs as [[[[[u e] d] tn] ti] o]. by rewrite H.
Qed.

Lemma cached_catalog_hit lib w self st st' :
  cached_catalog lib w self st = (Ok true, st') →
  ∃ sc attrs, RXT_SERVICE_CACHE st' !! hashed_auth_payload self = Some sc ∧
              federation_attributes sc = Ok attrs.
Proof.
  rewrite cached_catalog_eq.
  destruct (RXT_SERVICE_CACHE st !! hashed_auth_payload self) as [sc|] eqn:Hsc; [|done].
  destruct (truthy sc); [|done].
  destruct (catalog_expires sc) as [expires|[]]; try done.
  destruct (token_expire lib expires); [|done].
  destruct (Z.ltb _ _); [|done].
  pose proof (parse_service_catalog_cases sc st) as H.
  pose proof (parse_service_catalog_same sc st) as (_ & Hsame & _).
  destruct (federation_attributes sc) as [attrs|e] eqn:Hfa.
  - destruct attrs as [[[[[u e] d] tn] ti] o]. rewrite H in Hsame |- *.
    cbn [snd] in Hsame. intros [= <-]. exists sc. eexists. by rewrite Hsame.
  - by destruct e; rewrite H.
Qed.

Lemma exchange_success w self d st st' :
  exchange w self d st = (Ok false, st') →
  ∃ sc attrs, RXT_SERVICE_CACHE st' !! hashed_auth_payload self = Some sc ∧
              federation_attributes sc = Ok attrs.
Proof.
  rewrite exchange_eq. cbv zeta.
  destruct (post w d (rxt_headers st)) as [r|]; [|done].
  destruct (mfa_challenge r); [done|].
  destruct (raise_for_status r); [|done].
  destruct (response_json r) as [sc|]; [|done].
  pose proof (parse_service_catalog_cases sc (logged d st)) as H.
  destruct (federation_attributes sc) as [attrs|e] eqn:Hfa.
  - destruct attrs as [[[[[u e] dm] tn] ti] o]. rewrite H.
    intros [= <-]. exists sc. eexists. split; [|done]. cbn. by rewrite lookup_insert_eq.
  - by destruct e; rewrite H.
Qed.

Lemma attempt_success lib w self d k st st' :
  _rxt_auth lib w self d k st = (Ok false, st') →
  ∃ sc attrs, RXT_SERVICE_CACHE st' !! hashed_auth_payload self = Some sc ∧
              federation_attributes sc = Ok attrs.
Proof.
  rewrite rxt_auth_inner_eq.
  destruct (cached_catalog lib w self st) as [[[]|] st1] eqn:Hc; [| |done].
  - intros [= <-]. by eapply cached_catalog_hit.
  - destruct (_ && _); [done|]. apply exchange_success.
Qed.

(** Only a challenge writes to the session cache. *)
Lemma attempt_session lib w self d k st :
  fst (_rxt_auth lib w self d k st) ≠ Ok true →
  RXT_SESSION_CACHE (snd (_rxt_auth lib w self d k st)) = RXT_SESSION_CACHE st.
Proof.
  rewrite rxt_auth_inner_eq.
  pose proof (cached_catalog_frame lib w self st) as (Hs & _).
  destruct (cached_catalog lib w self st) as [[[]|] st1]; cbn in Hs; [done| |done].
  destruct (_ && _); [done|].
  rewrite exchange_eq. cbv zeta.
  destruct (post w d (rxt_headers st1)) as [r|]; [|done].
  destruct (mfa_challenge r); [done|].
  destruct (raise_for_status r); [|done].
  destruct (response_json r) as [sc|]; [|done].
  pose proof (parse_service_catalog_same sc (logged d st1)) as (Hs' & _).
  by destruct (parse_service_catalog sc (logged d st1)) as [[] ?]; cbn in *; rewrite Hs'.
Qed.

(** A call that answered with [status=True] left a catalog the
    translator accepts under the payload's fingerprint, and the session
    cache as it was. *)
Lemma rxt_auth_success n lib w self st r st' :
  rxt_auth n lib w self st = (Ok r, st') → status r = true →
  (∃ sc attrs, RXT_SERVICE_CACHE st' !! hashed_auth_payload self = Some sc ∧
               federation_attributes sc = Ok attrs) ∧
  RXT_SESSION_CACHE st' = RXT_SESSION_CACHE st.
Proof.
  revert self st. induction n as [|n IH]; intros self st; [done|].
  rewrite rxt_auth_step.
  destruct (rxt_auth_payload self) as [[auth_type auth_data]|]; [|done].
  pose proof (attempt_success lib w self auth_data auth_type st) as Hok.
  pose proof (attempt_session lib w self auth_data auth_type st) as Hs.
  destruct (_rxt_auth lib w self auth_data auth_type st) as [[mfa|e] st1].
  - destruct mfa; [by intros [= <- <-]|].
    unfold return_auth_handler. intros [= _ <-] _. split; [by apply Hok|by apply Hs].
  - destruct e; try done.
    destruct (String.eqb _ _); [|done].
    destruct (passwordCredentials self) as [creds|]; [|done].
    intros H1 H2. destruct (IH _ _ H1 H2) as [? ->]. split; [done|by apply Hs].
Qed.

(** What the selector answers depends on the payload and the session
    cache alone. *)
Lemma enter_session_only self st st' :
  rxt_auth_payload self = None →
  RXT_SESSION_CACHE st' = RXT_SESSION_CACHE st →
  fst (__enter__ self st') = fst (__enter__ self st).
Proof.
  intros Hnone Hs. rewrite !enter_eq by done. cbv zeta.
  unfold cached_session_id. rewrite Hs.
  by repeat case_match.
Qed.

Lemma parse_service_catalog_environ sc st st' :
  environ st' = environ st →
  environ (snd (parse_service_catalog sc st')) = environ (snd (parse_service_catalog sc st)).
Proof.
  intros He. unfold parse_service_catalog.
  destruct (federation_attributes sc) as [[[[[[u e] d] tn] ti] o]|e]; [|by destruct e].
  unfold set_federation_env, bind, set_if, set_environ, ret.
  repeat (destruct (truthy _); cbn); by rewrite ?He.
Qed.

(** C7.  After a call that answered with [status=True], a second call
    with the same payload, made while the [expires] of the catalog cached
    under the payload's fingerprint still lies ahead, posts nothing: it
    translates the cached catalog and answers from it, and leaves the
    service cache as it is. *)
Theorem second_call_from_cache lib w1 w2 payload st r1 st1 sc expires t :
  rackspace_login lib w1 payload st = (Ok r1, st1) →
  status r1 = true →
  RXT_SERVICE_CACHE st1 !! sha224_hexdigest lib (json_dumps lib payload) = Some sc →
  catalog_expires sc = Ok (JStr expires) →
  parser_parse lib expires = Some t →
  now w2 < t →
  let out := rackspace_login lib w2 payload st1 in
  exchanges st1 (snd out) = [] ∧
  fst out = auth_handler_response w2 payload
              (environ (snd (parse_service_catalog sc st1))) ∧
  RXT_SERVICE_CACHE (snd out) = RXT_SERVICE_CACHE st1.
Proof.
  intros Hfirst Hstatus Hsc Hexp Hparse Hnow. cbv zeta.
  destruct (select_credentials lib payload st) as [[rxt|e] st0] eqn:Hsel.
  2:{ by rewrite (rackspace_login_select_raise _ w1 _ _ _ _ Hsel) in Hfirst. }
  destruct (select_credentials_inv _ _ _ _ _ Hsel) as (rxt0 & Hinit & Henter & Hnone & Hpay).
  destruct (enter_inv _ _ _ _ Hnone Henter) as (Hap&Hhp&_&_&_&Hs0&_).
  rewrite (rackspace_login_eq _ _ _ _ _ _ Hsel) in Hfirst.
  destruct (rxt_auth 2 lib w1 rxt st0) as [r st'] eqn:Hrun. cbn [fst snd] in Hfirst.
  injection Hfirst as -> <-.
  destruct (rxt_auth_success _ _ _ _ _ _ _ Hrun Hstatus) as [(sc' & attrs & Hsc' & Hfa) Hs1].
  destruct (init_inv _ _ _ Hinit) as (name & fields & _ & _ & Hrxt0).
  assert (hashed_auth_payload rxt = sha224_hexdigest lib (json_dumps lib payload)) as Hfp.
  { rewrite Hhp, Hrxt0. done. }
  change (RXT_SERVICE_CACHE (closed st')) with (RXT_SERVICE_CACHE st') in Hsc.
  rewrite <- Hfp, Hsc' in Hsc. injection Hsc as ->.
  (* the second call *)
  pose proof (enter_session_only rxt0 st (closed st') Hnone) as Hfst.
  rewrite Henter in Hfst. cbn [fst] in Hfst.
  destruct (__enter__ rxt0 (closed st')) as [r2 st2] eqn:Henter2.
  cbn in Hfst. rewrite Hfst in Henter2 by (cbn; congruence).
  assert (select_credentials lib payload (closed st') = (Ok rxt, st2)) as Hsel2.
  { by rewrite (select_credentials_eq _ _ _ _ Hinit). }
  destruct (enter_inv _ _ _ _ Hnone Henter2) as (_&_&_&_&_&_&Hsc2&_&Henv2&Hposted2&_).
  rewrite (rackspace_login_eq _ _ _ _ _ _ Hsel2). cbn [fst snd].
  destruct (enter_inv _ _ _ _ Hnone Henter) as (_&_&_&_&(kind&data&Hp)&_).
  rewrite rxt_auth_step, Hp, rxt_auth_inner_eq.
  rewrite (cached_catalog_serve lib w2 rxt st2 sc attrs expires t);
    [|by rewrite Hsc2|done..].
  pose proof (parse_service_catalog_same sc st2) as (_ & Hsv & _ & _ & Hpp).
  pose proof (parse_service_catalog_environ sc (closed st') st2 Henv2) as Henv.
  destruct (parse_service_catalog sc st2) as [? st3]. cbn in Hsv, Hpp, Henv.
  unfold return_auth_handler. cbn [fst snd]. split; [|split].
  - rewrite exchanges_closed. apply exchanges_none. by rewrite Hpp.
  - by rewrite Hap, Hpay, Henv.
  - cbn. by rewrite Hsv, Hsc2.
Qed.

Lemma second_call_from_cache_witness :
  let w := Demo.world 1600000000 Demo.succeeds in
  let st1 := snd (rackspace_login Demo.lib w Demo.alice_password Demo.fresh) in
  exchanges Demo.fresh st1 ≠ [] ∧
  exchanges st1 (snd (rackspace_login Demo.lib w Demo.alice_password st1)) = [].
Proof.
  cbv zeta. split; [by vm_compute|].
  eapply (second_call_from_cache Demo.lib (Demo.world 1600000000 Demo.succeeds)
            (Demo.world 1600000000 Demo.succeeds) Demo.alice_password Demo.fresh).
  - vm_compute. reflexivity.
  - reflexivity.
  - vm_compute. reflexivity.
  - reflexivity.
  - reflexivity.
  - reflexivity.
Defined.

(** ** C9: what escapes *)




Lemma exchanges_app h1 h2 st st1 st2 :
  posts_with h1 st st1 → posts_with h2 st1 st2 →
  exchanges st st2 = (exchanges st st1 ++ exchanges st1 st2)%list.
Proof.
  intros (l1 & H1 & _) (l2 & H2 & _). unfold exchanges.
  rewrite H2, H1. rewrite (drop_app_length (posted st ++ l1)).
  by rewrite <- app_assoc, !drop_app_length.
Qed.


Lemma attempt_http_failure lib w self auth_data auth_type st d h :
  (d, h) ∈ exchanges st (snd (_rxt_auth lib w self auth_data auth_type st)) →
  http_failure (post w d h) →
  (d, h) = (auth_data, rxt_headers st) ∧
  ∃ s, fst (_rxt_auth lib w self auth_data auth_type st) = Raise (HTTPError s).
Proof.
  rewrite rxt_auth_inner_eq.
  pose proof (cached_catalog_frame lib w self st) as (Hs & Hh & _ & Hp).
  destruct (cached_catalog lib w self st) as [[[]|] st1]; cbn [fst snd] in *.
  1,3: by rewrite (exchanges_none _ _ Hp); intros ?%elem_of_nil.
  destruct (_ && _); cbn [fst snd].
  { by rewrite (exchanges_none _ _ Hp); intros ?%elem_of_nil. }
  rewrite (exchanges_one st _ (auth_data, rxt_headers st)).
  2:{ by rewrite exchange_posted, Hp, Hh. }
  intros [= -> ->]%list_elem_of_singleton Hfail. split; [done|]. rewrite <- Hh in Hfail.
  destruct (http_failure_exchange w self _ _ Hfail) as [s ->]. eauto.
Qed.




(** ** C6: the translator *)


(** *** The first key the translator misses *)















(** ** C3: a cached catalogue whose [expires] does not parse *)

(** C3.  A cached catalogue whose [expires] [dateutil] cannot parse is
    not evicted: [parser.parse] raises, nothing catches it, the call ends
    with that [ParserError] before any POST, and the entry stays in the
    service cache for the next call to meet. *)
Theorem unparsable_expiry_raises lib w payload st rxt st0 sc expires :
  select_credentials lib payload st = (Ok rxt, st0) →
  RXT_SERVICE_CACHE st !! hashed_auth_payload rxt = Some sc →
  catalog_expires sc = Ok (JStr expires) →
  parser_parse lib expires = None →
  fst (rackspace_login lib w payload st) = Raise ParserError ∧
  RXT_SERVICE_CACHE (snd (rackspace_login lib w payload st)) = RXT_SERVICE_CACHE st ∧
  exchanges st (snd (rackspace_login lib w payload st)) = [].
Proof.
  intros Hsel Hsc Hexp Hparse.
  destruct (select_credentials_inv _ _ _ _ _ Hsel) as (rxt0 & _ & Henter & Hnone & _).
  destruct (enter_inv _ _ _ _ Hnone Henter)
    as (_&_&_&_&(kind&data&Hp)&_&Hsv&_&_&Hposted&_).
  rewrite (rackspace_login_eq _ _ _ _ _ _ Hsel). cbn [fst snd].
  rewrite exchanges_closed.
  change (RXT_SERVICE_CACHE (closed ?s)) with (RXT_SERVICE_CACHE s).
  rewrite rxt_auth_step, Hp, rxt_auth_inner_eq, cached_catalog_eq, Hsv, Hsc.
  rewrite (catalog_expires_truthy _ _ Hexp), Hexp. cbn [token_expire]. rewrite Hparse.
  cbn [fst snd]. split; [done|]. split; [done|]. by apply exchanges_none.
Qed.

Lemma unparsable_expiry_raises_witness :
  fst (rackspace_login Demo.lib (Demo.world 1600000000 Demo.succeeds)
         Demo.alice_password (Demo.cached (JStr "tomorrow-ish"))) = Raise ParserError ∧
  RXT_SERVICE_CACHE
    (snd (rackspace_login Demo.lib (Demo.world 1600000000 Demo.succeeds)
            Demo.alice_password (Demo.cached (JStr "tomorrow-ish")))) =
    RXT_SERVICE_CACHE (Demo.cached (JStr "tomorrow-ish")) ∧
  exchanges (Demo.cached (JStr "tomorrow-ish"))
    (snd (rackspace_login Demo.lib (Demo.world 1600000000 Demo.succeeds)
            Demo.alice_password (Demo.cached (JStr "tomorrow-ish")))) = [].
Proof.
  eapply (unparsable_expiry_raises Demo.lib (Demo.world 1600000000 Demo.succeeds)
            Demo.alice_password (Demo.cached (JStr "tomorrow-ish"))).
  - reflexivity.
  - vm_compute. reflexivity.
  - reflexivity.
  - reflexivity.
Defined.

(** * Further properties of the module *)

(** ** The payload's fields *)

(** [_username]: [user.name] wins over [user.username]; a payload with
    neither, or without [user], is refused with "missing the name"; a
    [user] that is no dict raises [TypeError]. *)
Lemma username_priority payload :
  _username payload =
    match getitem payload "user" with
    | Ok (JObj fields) =>
        match dict_lookup "name" fields, dict_lookup "username" fields with
        | Some v, _ => Ok v
        | None, Some v => Ok v
        | None, None => Raise (Unauthorized MissingName)
        end
    | Ok _ => Raise TypeError
    | Raise (KeyError _) => Raise (Unauthorized MissingName)
    | Raise e => Raise e
    end.
Proof.
  unfold _username.
  destruct (getitem payload "user") as [user|e]; cbn [rbind].
  - destruct user as [| | | | |fields]; try reflexivity. cbn.
    destruct (dict_lookup "name" fields); [done|]. cbn.
    by destruct (dict_lookup "username" fields).
  - by destruct e.
Qed.

(** [_passcode]: the passcode is optional.  A payload without
    [user.passcode], or without [user], has the passcode [None]; only a
    [user] that is no dict raises ([TypeError]).  The property never
    raises [Unauthorized]. *)
Lemma passcode_optional payload :
  _passcode payload =
    match getitem payload "user" with
    | Ok (JObj fields) => Ok (default JNull (dict_lookup "passcode" fields))
    | Ok _ => Raise TypeError
    | Raise (KeyError _) => Ok JNull
    | Raise e => Raise e
    end.
Proof.
  unfold _passcode.
  destruct (getitem payload "user") as [user|e]; cbn [rbind].
  - destruct user as [| | | | |fields]; try reflexivity. cbn.
    by destruct (dict_lookup "passcode" fields).
  - by destruct e.
Qed.

(** X1.  The constructor by the shape of the payload.  The user name is read
    from [user.name] and, only when that key is missing, from
    [user.username]; the user's fingerprint is the digest of that name
    alone, so it is the same for every payload of the user, and the
    payload's fingerprint is the digest of the whole payload.  A name that
    is no string has no [encode] and raises [AttributeError]; a payload
    with neither key is refused with "missing the name". *)
Theorem constructor_by_payload lib payload fields :
  getitem payload "user" = Ok (JObj fields) →
  __init__ lib payload =
    match (match dict_lookup "name" fields with
           | Some v => Some v
           | None => dict_lookup "username" fields
           end) with
    | Some (JStr name) =>
        Ok (mkRXT payload (sha224_hexdigest lib (json_dumps lib payload))
              (sha224_hexdigest lib name) None None)
    | Some _ => Raise AttributeError
    | None => Raise (Unauthorized MissingName)
    end.
Proof.
  intros Hu. unfold __init__. rewrite username_priority, Hu.
  destruct (dict_lookup "name" fields) as [v|].
  - by destruct v.
  - destruct (dict_lookup "username" fields) as [v|]; [|done]. by destruct v.
Qed.

Lemma constructor_by_payload_witness :
  (∃ rxt, __init__ Demo.lib (Demo.user [("username", JStr "alice")]) = Ok rxt ∧
          hashed_auth_user rxt = "sha224(alice)") ∧
  __init__ Demo.lib (Demo.user [("name", JNum 7)]) = Raise AttributeError.
Proof.
  split.
  - eexists. split; [|].
    + exact (constructor_by_payload Demo.lib (Demo.user [("username", JStr "alice")])
               _ eq_refl).
    + reflexivity.
  - exact (constructor_by_payload Demo.lib (Demo.user [("name", JNum 7)]) _ eq_refl).
Defined.

(** ** The API-key patterns *)

Lemma forallb_true_Forall {A} (f : A → bool) l :
  forallb f l = true ↔ Forall (λ x, f x = true) l.
Proof.
  induction l as [|x l IH]; cbn; [by split|].
  rewrite andb_true_iff, Forall_cons, IH. done.
Qed.

(** X2.  [re.match(r"^[a-fA-F0-9]{n}$", s)] succeeds exactly on [n]
    hexadecimal digits, and on [n] hexadecimal digits followed by one
    line feed. *)
Theorem re_match_hash_spec n s :
  re_match_hash n s = true ↔
  ∃ digits, length digits = n ∧ Forall (λ c, is_hex c = true) digits ∧
            (s = String.string_of_list_ascii digits ∨
             s = String.string_of_list_ascii (digits ++ [newline])%list).
Proof.
  unfold re_match_hash. cbv zeta.
  rewrite !andb_true_iff, Nat.eqb_eq, forallb_true_Forall.
  split.
  - intros [[Hlen Hhex] Hrest].
    exists (take n (String.list_ascii_of_string s)).
    split; [done|]. split; [done|].
    rewrite <- (String.string_of_list_ascii_of_string s) at 1 3.
    rewrite <- (take_drop n (String.list_ascii_of_string s)) at 1 3.
    destruct (drop n (String.list_ascii_of_string s)) as [|c [|??]]; [| |done].
    + left. by rewrite app_nil_r.
    + right. by apply bool_decide_eq_true in Hrest as ->.
  - intros (digits & Hlen & Hhex & [-> | ->]);
      rewrite String.list_ascii_of_string_of_list_ascii.
    + rewrite take_ge, drop_ge by lia. done.
    + rewrite take_app_length', drop_app_length' by done.
      split; [by split|]. by apply bool_decide_eq_true.
Qed.

(** ** Role names *)

Lemma string_of_list_ascii_app l1 l2 :
  String.string_of_list_ascii (l1 ++ l2)%list =
    String.string_of_list_ascii l1 +:+ String.string_of_list_ascii l2.
Proof. induction l1 as [|c l1 IH]; [done|]. cbn. by rewrite IH. Qed.

Lemma last_segment_from_spec cs acc :
  colon ∉ acc →
  let r := last_segment_from cs acc in
  (colon ∉ r) ∧
  ((rev acc ++ cs)%list = r ∨ ∃ pre, (rev acc ++ cs)%list = (pre ++ colon :: r)%list).
Proof.
  cbv zeta. revert acc. induction cs as [|c cs IH]; intros acc Hacc; cbn [last_segment_from].
  - split; [by rewrite list_elem_of_In, <- in_rev, <- list_elem_of_In|].
    left. by rewrite app_nil_r.
  - destruct (bool_decide (c = colon)) eqn:Hc.
    + apply bool_decide_eq_true in Hc as ->.
      destruct (IH [] (not_elem_of_nil _)) as [Hr [Heq|[pre Heq]]]; cbn in Heq.
      * split; [done|]. right. exists (rev acc). by rewrite <- Heq.
      * split; [done|]. right. exists (rev acc ++ colon :: pre)%list.
        rewrite <- app_assoc. cbn [app]. by rewrite <- Heq.
    + apply bool_decide_eq_false in Hc.
      destruct (IH (c :: acc)) as [Hr Heq].
      { rewrite not_elem_of_cons. split; [congruence|done]. }
      split; [done|]. cbn [rev] in Heq. by rewrite <- app_assoc in Heq.
Qed.

(** X3.  [name.split(":")[-1]] holds no colon, and is the whole name or what
    follows a colon of it: the text after the last colon. *)
Theorem last_segment_spec s :
  (colon ∉ String.list_ascii_of_string (last_segment s)) ∧
  (s = last_segment s ∨ ∃ pre, s = pre +:+ ":" +:+ last_segment s).
Proof.
  unfold last_segment.
  pose proof (last_segment_from_spec (String.list_ascii_of_string s) []
                (not_elem_of_nil _)) as [Hr Heq].
  remember (last_segment_from (String.list_ascii_of_string s) []) as r eqn:Er.
  cbn [rev app] in Heq.
  rewrite String.list_ascii_of_string_of_list_ascii. split; [done|].
  destruct Heq as [Heq|[pre Heq]].
  - left. by rewrite <- Heq, String.string_of_list_ascii_of_string.
  - right. exists (String.string_of_list_ascii pre).
    rewrite <- (String.string_of_list_ascii_of_string s) at 1.
    by rewrite Heq, string_of_list_ascii_app.
Qed.

(** ** The session identifier *)

Lemma lazy_group_spec t acc g rest :
  lazy_group t acc = Some (g, rest) →
  ∃ body c, g = (rev acc ++ body ++ [c])%list ∧ t = (body ++ c :: quote :: rest)%list ∧
            c ≠ backslash ∧ newline ∉ body.
Proof.
  revert acc. induction t as [|c t IH]; intros acc; cbn [lazy_group]; [done|].
  destruct t as [|q rest']; [done|].
  destruct (negb (bool_decide (c = backslash)) && bool_decide (q = quote)) eqn:Hend.
  - intros [= <- <-]. apply andb_true_iff in Hend as [Hc Hq].
    apply negb_true_iff, bool_decide_eq_false in Hc.
    apply bool_decide_eq_true in Hq as ->.
    exists [], c. repeat split; [done..|apply not_elem_of_nil].
  - destruct (bool_decide (c = newline)) eqn:Hnl; [done|].
    apply bool_decide_eq_false in Hnl.
    intros (body & c' & -> & Ht & Hc' & Hbody)%IH.
    exists (c :: body), c'. cbn [rev]. rewrite <- !app_assoc. cbn [app].
    repeat split; [by rewrite Ht|done|].
    rewrite not_elem_of_cons. split; [congruence|done].
Qed.

Lemma skip_literal_spec p t r : skip_literal p t = Some r → t = (p ++ r)%list.
Proof.
  revert t. induction p as [|a p IH]; intros t; cbn [skip_literal]; [by intros [= ->]|].
  destruct t as [|b t]; [done|].
  destruct (bool_decide (a = b)) eqn:Hab; [|done].
  apply bool_decide_eq_true in Hab as ->. by intros ->%IH.
Qed.

Lemma findall_from_spec n cs s :
  s ∈ findall_from n cs →
  ∃ pre post body c,
    cs = (pre ++ sessionId_prefix ++ String.list_ascii_of_string s ++ quote :: post)%list ∧
    String.list_ascii_of_string s = (body ++ [c])%list ∧ c ≠ backslash ∧ newline ∉ body.
Proof.
  revert cs. induction n as [|n IH]; intros cs; cbn [findall_from].
  { by intros ?%elem_of_nil. }
  destruct cs as [|c0 cs']; [by intros ?%elem_of_nil|].
  assert (s ∈ findall_from n cs' →
          ∃ pre post body c,
            (c0 :: cs') = (pre ++ sessionId_prefix ++ String.list_ascii_of_string s ++
                           quote :: post)%list ∧
            String.list_ascii_of_string s = (body ++ [c])%list ∧ c ≠ backslash ∧
            newline ∉ body) as Hskip.
  { intros (pre & post & body & c & -> & ?)%IH. by exists (c0 :: pre), post, body, c. }
  destruct (skip_literal sessionId_prefix (c0 :: cs')) as [t|] eqn:Hp; [|done].
  destruct (lazy_group t []) as [[g rest]|] eqn:Hg; [|done].
  apply skip_literal_spec in Hp. apply lazy_group_spec in Hg as (body & c & -> & -> & Hc & Hb).
  cbn [rev app] in *.
  intros [->|Hin]%elem_of_cons.
  - exists [], rest, body, c. rewrite String.list_ascii_of_string_of_list_ascii.
    repeat split; [|done..]. rewrite Hp. cbn [app]. by rewrite <- !app_assoc.
  - apply IH in Hin as (pre & post & body' & c' & -> & ?).
    exists (sessionId_prefix ++ body ++ c :: quote :: pre)%list, post, body', c'.
    split; [|done]. rewrite Hp. by rewrite <- !app_assoc.
Qed.

(** X4.  [_sessionID]: an identifier read from the cached header stands in
    that header between [sessionId='] and a closing quote; it is not
    empty, its last character is no backslash, and no line feed comes
    before its last character. *)
Theorem session_id_extracted rxt st sid :
  cached_session_id rxt st = Some sid →
  ∃ header pre post body c,
    RXT_SESSION_CACHE st !! hashed_auth_user rxt = Some header ∧
    header = pre +:+ "sessionId='" +:+ sid +:+ "'" +:+ post ∧
    String.list_ascii_of_string sid = (body ++ [c])%list ∧
    c ≠ backslash ∧ newline ∉ body.
Proof.
  unfold cached_session_id.
  destruct (RXT_SESSION_CACHE st !! hashed_auth_user rxt) as [header|]; [|done].
  intros Hin%last_elem_of. unfold findall in Hin.
  apply findall_from_spec in Hin as (pre & post & body & c & Hh & Hs & Hc & Hb).
  exists header, (String.string_of_list_ascii pre), (String.string_of_list_ascii post), body, c.
  repeat split; [|done..].
  rewrite <- (String.string_of_list_ascii_of_string header), Hh.
  rewrite !string_of_list_ascii_app. cbn [String.string_of_list_ascii].
  by rewrite String.string_of_list_ascii_of_string.
Qed.

Lemma session_id_extracted_witness :
  ∃ header pre post body c,
    RXT_SESSION_CACHE Demo.challenged !! "sha224(alice)" = Some header ∧
    header = pre +:+ "sessionId='" +:+ "abc123" +:+ "'" +:+ post ∧
    String.list_ascii_of_string "abc123" = (body ++ [c])%list ∧
    c ≠ backslash ∧ newline ∉ body.
Proof.
  exact (session_id_extracted
           (mkRXT Demo.alice_passcode "" "sha224(alice)" None None) Demo.challenged
           "abc123" eq_refl).
Defined.

(** ** The payload handed to Keystone *)

Lemma dict_lookup_update_eq k v fields : dict_lookup k (dict_update k v fields) = Some v.
Proof.
  induction fields as [|[k' v'] fields IH]; cbn.
  - by rewrite String.eqb_refl.
  - destruct (String.eqb k k') eqn:Hk; cbn; [by rewrite String.eqb_refl|].
    by rewrite Hk.
Qed.

Lemma dict_lookup_update_ne k k' v fields :
  k ≠ k' → dict_lookup k' (dict_update k v fields) = dict_lookup k' fields.
Proof.
  intros Hne. induction fields as [|[k0 v0] fields IH]; cbn.
  - by apply String.eqb_neq in Hne; rewrite String.eqb_sym, Hne.
  - destruct (String.eqb k k0) eqn:Hk; cbn.
    + apply String.eqb_eq in Hk as <-.
      by apply String.eqb_neq in Hne; rewrite String.eqb_sym, Hne.
    + by rewrite IH.
Qed.

(** X5.  [return_auth_handler] overwrites [identity_provider] and [protocol]
    with ["rackspace"], whatever the caller sent under these keys, and
    leaves every other key of the payload as it is; in particular the
    test [id in auth_payload] is not affected. *)
Theorem federated_payload_lookup fields k :
  getitem (federated_payload (JObj fields)) k =
    if String.eqb k "identity_provider" || String.eqb k "protocol"
    then Ok (JStr "rackspace")
    else getitem (JObj fields) k.
Proof.
  unfold federated_payload. cbn [setitem getitem].
  destruct (String.eqb k "protocol") eqn:Hp.
  - apply String.eqb_eq in Hp as ->. rewrite orb_true_r.
    by rewrite dict_lookup_update_eq.
  - apply String.eqb_neq in Hp. rewrite orb_false_r.
    rewrite dict_lookup_update_ne by done.
    destruct (String.eqb k "identity_provider") eqn:Hi.
    + apply String.eqb_eq in Hi as ->. by rewrite dict_lookup_update_eq.
    + apply String.eqb_neq in Hi. by rewrite dict_lookup_update_ne.
Qed.

Lemma dict_update_id k v fields :
  dict_lookup k fields = Some v → dict_update k v fields = fields.
Proof.
  induction fields as [|[k' v'] fields IH]; cbn; [done|].
  destruct (String.eqb k k') eqn:Hk.
  - apply String.eqb_eq in Hk as ->. by intros [= ->].
  - intros H. by rewrite IH.
Qed.

(** X6.  Writing the two keys twice is writing them once: a payload that went
    through [return_auth_handler] comes out of a second pass unchanged,
    and a payload comes out unchanged of the first only when it already
    names ["rackspace"] under both keys. *)
Theorem federated_payload_idempotent fields :
  federated_payload (federated_payload (JObj fields)) = federated_payload (JObj fields) ∧
  (federated_payload (JObj fields) = JObj fields ↔
   dict_lookup "identity_provider" fields = Some (JStr "rackspace") ∧
   dict_lookup "protocol" fields = Some (JStr "rackspace")).
Proof.
  unfold federated_payload. cbn [setitem]. split.
  - f_equal.
    rewrite (dict_update_id "identity_provider").
    2:{ rewrite dict_lookup_update_ne by done. apply dict_lookup_update_eq. }
    apply dict_update_id, dict_lookup_update_eq.
  - split.
    + intros [= H]. rewrite <- H at 1 2.
      split; [|apply dict_lookup_update_eq].
      rewrite dict_lookup_update_ne by done. apply dict_lookup_update_eq.
    + intros [Hi Hp]. f_equal. rewrite (dict_update_id "identity_provider") by done.
      by apply dict_update_id.
Qed.

(** ** What one call does to the process *)

Lemma cached_catalog_false lib w self st st' :
  cached_catalog lib w self st = (Ok false, st') →
  (st' = st ∨ st' = evicted self st) ∧ no_catalog self st'.
Proof.
  intros H. split.
  - revert H. rewrite cached_catalog_eq.
    repeat case_match; try done; intros [= <-]; auto.
  - pose proof (cached_catalog_miss lib w self st) as Hm. rewrite H in Hm. by apply Hm.
Qed.

Lemma exchange_closes w self d st :
  session_closes (snd (exchange w self d st)) = session_closes st.
Proof.
  rewrite exchange_eq. cbv zeta.
  destruct (post w d (rxt_headers st)) as [r|]; [|done].
  destruct (mfa_challenge r); [done|].
  destruct (raise_for_status r); [|done].
  destruct (response_json r) as [sc|]; [|done].
  pose proof (parse_service_catalog_same sc (logged d st)) as (?&?&?&Hc&?).
  destruct (parse_service_catalog sc (logged d st)) as [[] ?]; cbn in *; by rewrite Hc.
Qed.

Lemma attempt_closes lib w self d k st :
  session_closes (snd (_rxt_auth lib w self d k st)) = session_closes st.
Proof.
  rewrite rxt_auth_inner_eq.
  pose proof (cached_catalog_frame lib w self st) as (_ & _ & Hc & _).
  destruct (cached_catalog lib w self st) as [[[]|] st1]; cbn [fst snd] in *; [done| |done].
  destruct (_ && _); [done|]. by rewrite exchange_closes.
Qed.

Lemma rxt_auth_closes n lib w self st :
  session_closes (snd (rxt_auth n lib w self st)) = session_closes st.
Proof.
  revert self st. induction n as [|n IH]; intros self st; [done|].
  rewrite rxt_auth_step.
  destruct (rxt_auth_payload self) as [[auth_type auth_data]|]; [|done].
  pose proof (attempt_closes lib w self auth_data auth_type st) as Hc.
  destruct (_rxt_auth lib w self auth_data auth_type st) as [[mfa|e] st1]; cbn [snd] in Hc.
  - by destruct mfa.
  - destruct e as [?| | | | |s| | | |?|?]; try done.
    destruct (String.eqb _ _); [|done].
    destruct (passwordCredentials self) as [creds|]; [|done].
    by rewrite IH.
Qed.

(** X7.  [__exit__] closes the session exactly once for a call that got past
    [__enter__], whether [rxt_auth] returned or raised, and not at all
    for a call whose payload the constructor or [__enter__] refused. *)
Theorem session_closed_once lib w payload st :
  session_closes (snd (rackspace_login lib w payload st)) =
    match fst (select_credentials lib payload st) with
    | Ok _ => S (session_closes st)
    | Raise _ => session_closes st
    end.
Proof.
  destruct (select_credentials lib payload st) as [[rxt|e] st0] eqn:Hsel.
  2:{ by rewrite (rackspace_login_select_raise _ w _ _ _ _ Hsel). }
  destruct (select_credentials_inv _ _ _ _ _ Hsel) as (rxt0 & _ & Henter & Hnone & _).
  destruct (enter_inv _ _ _ _ Hnone Henter) as (_&_&_&_&_&_&_&Hc&_).
  rewrite (rackspace_login_eq _ _ _ _ _ _ Hsel). cbn [fst snd].
  change (session_closes (closed ?s)) with (S (session_closes s)).
  by rewrite rxt_auth_closes, Hc.
Qed.

(** *** The number of POSTs *)

Lemma attempt_count lib w self d k st :
  (length (exchanges st (snd (_rxt_auth lib w self d k st))) ≤ 1)%nat.
Proof.
  destruct (attempt_posted lib w self d k st) as [_ [Hp|Hp]].
  - by rewrite (exchanges_none _ _ Hp); cbn; lia.
  - by rewrite (exchanges_one _ _ _ Hp).
Qed.

(** X8.  A call makes at most two POSTs, and at most one unless the selector
    settled on API-key credentials; a call the selector refused makes
    none. *)
Theorem at_most_two_posts lib w payload st :
  (length (exchanges st (snd (rackspace_login lib w payload st))) ≤
     match selected_kind (select_credentials lib payload st) with
     | Some kind => if String.eqb kind "apiKeyCredentials" then 2 else 1
     | None => 0
     end)%nat.
Proof.
  unfold selected_kind.
  destruct (select_credentials lib payload st) as [[rxt|e] st0] eqn:Hsel.
  2:{ rewrite (rackspace_login_select_raise _ w _ _ _ _ Hsel). cbn [fst snd].
      by rewrite (exchanges_none st st). }
  destruct (select_credentials_inv _ _ _ _ _ Hsel) as (rxt0 & _ & Henter & Hnone & _).
  destruct (enter_inv _ _ _ _ Hnone Henter) as (_&_&_&_&(kind&data&Hp)&_&_&_&_&Hposted&_).
  rewrite (rackspace_login_eq _ _ _ _ _ _ Hsel). cbn [fst snd].
  rewrite exchanges_closed, (exchanges_shift st st0) by done.
  rewrite Hp. cbn [fmap option_fmap option_map fst].
  pose proof (attempt_count lib w rxt data kind st0) as H1.
  pose proof (attempt_posts lib w rxt data kind st0) as [_ Hp1].
  destruct (String.eqb kind "apiKeyCredentials") eqn:Hk.
  2:{ by rewrite (rxt_auth_no_retry 1 _ _ _ _ _ _ Hp Hk),
               (rxt_auth_last_state _ _ _ _ _ _ Hp Hk). }
  rewrite rxt_auth_step, Hp, Hk.
  destruct (_rxt_auth lib w rxt data kind st0) as [[mfa|e] st1]; cbn [snd] in *.
  - destruct mfa; cbn [snd return_auth_handler]; lia.
  - destruct e as [?| | | | |s| | | |?|?]; cbn [snd]; try lia.
    destruct (passwordCredentials rxt) as [[kind' data']|] eqn:Hpw; cbn [snd]; [|lia].
    pose proof (passwordCredentials_kind _ _ Hpw) as Hk'. cbn in Hk'. subst kind'.
    set (retry := with_rxt_auth_payload rxt _).
    rewrite (rxt_auth_last_state _ _ retry _ "passwordCredentials" data') by done.
    pose proof (attempt_count lib w retry data' "passwordCredentials" st1) as H2.
    pose proof (attempt_posts lib w retry data' "passwordCredentials" st1) as [_ Hp2].
    rewrite (exchanges_app _ _ _ _ _ Hp1 Hp2), length_app. lia.
Qed.

(** *** The session cache *)

Lemma rxt_auth_session n lib w self st :
  fst (rxt_auth n lib w self st) = Ok mfa_pending ∨
  RXT_SESSION_CACHE (snd (rxt_auth n lib w self st)) = RXT_SESSION_CACHE st.
Proof.
  revert self st. induction n as [|n IH]; intros self st; [by right|].
  rewrite rxt_auth_step.
  destruct (rxt_auth_payload self) as [[auth_type auth_data]|]; [|by right].
  pose proof (attempt_session lib w self auth_data auth_type st) as Hs.
  destruct (_rxt_auth lib w self auth_data auth_type st) as [[mfa|e] st1]; cbn [fst snd] in Hs.
  - destruct mfa; [by left|]. right. by apply Hs.
  - specialize (Hs ltac:(done)).
    destruct e as [?| | | | |s| | | |?|?]; try by right.
    destruct (String.eqb _ _); [|by right].
    destruct (passwordCredentials self) as [creds|]; [|by right].
    destruct (IH (with_rxt_auth_payload self creds) st1) as [?|H]; [by left|].
    right. by rewrite H.
Qed.

(** X9.  Only a call that answers "MFA pending" writes to the session cache:
    every other call, whether it returns or raises, leaves the cached
    session headers as they are. *)
Theorem session_cache_only_challenge lib w payload st :
  fst (rackspace_login lib w payload st) = Ok mfa_pending ∨
  RXT_SESSION_CACHE (snd (rackspace_login lib w payload st)) = RXT_SESSION_CACHE st.
Proof.
  destruct (select_credentials lib payload st) as [[rxt|e] st0] eqn:Hsel.
  2:{ right. by rewrite (rackspace_login_select_raise _ w _ _ _ _ Hsel). }
  destruct (select_credentials_inv _ _ _ _ _ Hsel) as (rxt0 & _ & Henter & Hnone & _).
  destruct (enter_inv _ _ _ _ Hnone Henter) as (_&_&_&_&_&Hs&_).
  rewrite (rackspace_login_eq _ _ _ _ _ _ Hsel). cbn [fst snd].
  change (RXT_SESSION_CACHE (closed ?s)) with (RXT_SESSION_CACHE s).
  destruct (rxt_auth_session 2 lib w rxt st0) as [?|H]; [by left|].
  right. by rewrite H.
Qed.

(** *** The service cache *)

Lemma exchange_service w self d st :
  map_Forall (λ _ sc, accepted sc) (RXT_SERVICE_CACHE st) →
  map_Forall (λ _ sc, accepted sc) (RXT_SERVICE_CACHE (snd (exchange w self d st))).
Proof.
  intros Hall. rewrite exchange_eq. cbv zeta.
  destruct (post w d (rxt_headers st)) as [r|]; [|done].
  destruct (mfa_challenge r); [done|].
  destruct (raise_for_status r); [|done].
  destruct (response_json r) as [sc|]; [|done].
  pose proof (parse_service_catalog_cases sc (logged d st)) as H.
  destruct (federation_attributes sc) as [attrs|e] eqn:Hfa.
  - destruct attrs as [[[[[u e] dm] tn] ti] o]. rewrite H. cbn [snd].
    pose proof (set_federation_env_same u e dm tn ti o (logged d st)) as (_ & Hsv & _).
    cbn. rewrite Hsv. apply map_Forall_insert_2; [by eexists|done].
  - by destruct e; rewrite H.
Qed.

Lemma attempt_service lib w self d k st :
  map_Forall (λ _ sc, accepted sc) (RXT_SERVICE_CACHE st) →
  map_Forall (λ _ sc, accepted sc) (RXT_SERVICE_CACHE (snd (_rxt_auth lib w self d k st))).
Proof.
  intros Hall. rewrite rxt_auth_inner_eq.
  assert (map_Forall (λ _ sc, accepted sc)
            (RXT_SERVICE_CACHE (snd (cached_catalog lib w self st)))) as Hc.
  { rewrite cached_catalog_eq.
    assert (map_Forall (λ _ sc, accepted sc) (RXT_SERVICE_CACHE (evicted self st))) as He.
    { by apply map_Forall_delete. }
    destruct (RXT_SERVICE_CACHE st !! hashed_auth_payload self) as [sc|]; [|done].
    destruct (truthy sc); [|done].
    destruct (catalog_expires sc) as [expires|[]]; try done.
    destruct (token_expire lib expires); [|done].
    destruct (Z.ltb _ _); [|done].
    pose proof (parse_service_catalog_same sc st) as (_ & Hsv & _).
    destruct (parse_service_catalog sc st) as [[] ?]; cbn in *; by rewrite Hsv. }
  destruct (cached_catalog lib w self st) as [[[]|] st1]; cbn [snd] in *; [done| |done].
  destruct (_ && _); [done|]. by apply exchange_service.
Qed.

Lemma rxt_auth_service n lib w self st :
  map_Forall (λ _ sc, accepted sc) (RXT_SERVICE_CACHE st) →
  map_Forall (λ _ sc, accepted sc) (RXT_SERVICE_CACHE (snd (rxt_auth n lib w self st))).
Proof.
  revert self st. induction n as [|n IH]; intros self st Hall; [done|].
  rewrite rxt_auth_step.
  destruct (rxt_auth_payload self) as [[auth_type auth_data]|]; [|done].
  pose proof (attempt_service lib w self auth_data auth_type st Hall) as H1.
  destruct (_rxt_auth lib w self auth_data auth_type st) as [[mfa|e] st1]; cbn [snd] in H1.
  - by destruct mfa.
  - destruct e as [?| | | | |s| | | |?|?]; try done.
    destruct (String.eqb _ _); [|done].
    destruct (passwordCredentials self) as [creds|]; [|done].
    by apply IH.
Qed.

(** X10.  The service cache only ever receives catalogues the translator has
    accepted: when every cached catalogue is one before a call, every
    cached catalogue is one after it. *)
Theorem service_cache_accepted lib w payload st :
  map_Forall (λ _ sc, accepted sc) (RXT_SERVICE_CACHE st) →
  map_Forall (λ _ sc, accepted sc)
    (RXT_SERVICE_CACHE (snd (rackspace_login lib w payload st))).
Proof.
  intros Hall.
  destruct (select_credentials lib payload st) as [[rxt|e] st0] eqn:Hsel.
  2:{ by rewrite (rackspace_login_select_raise _ w _ _ _ _ Hsel). }
  destruct (select_credentials_inv _ _ _ _ _ Hsel) as (rxt0 & _ & Henter & Hnone & _).
  destruct (enter_inv _ _ _ _ Hnone Henter) as (_&_&_&_&_&_&Hsv&_).
  rewrite (rackspace_login_eq _ _ _ _ _ _ Hsel). cbn [fst snd].
  change (RXT_SERVICE_CACHE (closed ?s)) with (RXT_SERVICE_CACHE s).
  apply rxt_auth_service. by rewrite Hsv.
Qed.

Lemma service_cache_accepted_witness :
  map_Forall (λ _ sc, accepted sc)
    (RXT_SERVICE_CACHE
       (snd (rackspace_login Demo.lib (Demo.world 1600000000 Demo.succeeds)
               Demo.alice_password Demo.fresh))) ∧
  RXT_SERVICE_CACHE
    (snd (rackspace_login Demo.lib (Demo.world 1600000000 Demo.succeeds)
            Demo.alice_password Demo.fresh)) !! Demo.fingerprint Demo.alice_password =
    Some Demo.good_catalog.
Proof.
  split; [|vm_compute; reflexivity].
  apply (service_cache_accepted Demo.lib (Demo.world 1600000000 Demo.succeeds)
           Demo.alice_password Demo.fresh).
  apply map_Forall_empty.
Defined.

(** *** The POST that ends a call *)

(** A POST of [rxt_auth] that upstream did not answer with an HTTP error
    is the call's last act on the network: what [rxt_auth] returns is
    what the exchange around that POST gives, made in a state that
    differs from the one [rxt_auth] started in by an evicted catalogue
    and the POSTs logged before. *)
Lemma rxt_auth_answered n lib w self st d h :
  (d, h) ∈ exchanges st (snd (rxt_auth n lib w self st)) →
  ¬ http_failure (post w d h) →
  ∃ self' st1,
    auth_payload self' = auth_payload self ∧
    hashed_auth_payload self' = hashed_auth_payload self ∧
    hashed_auth_user self' = hashed_auth_user self ∧
    h = rxt_headers st ∧ rxt_headers st1 = rxt_headers st ∧
    RXT_SESSION_CACHE st1 = RXT_SESSION_CACHE st ∧
    environ st1 = environ st ∧
    RXT_SERVICE_CACHE st1 ⊆ RXT_SERVICE_CACHE st ∧
    no_catalog self st1 ∧
    rxt_auth n lib w self st =
      match exchange w self' d st1 with
      | (Ok true, st2) => (Ok mfa_pending, st2)
      | (Ok false, st2) => return_auth_handler w self' st2
      | (Raise e, st2) => (Raise e, st2)
      end.
Proof.
  revert self st. induction n as [|n IH]; intros self st.
  { cbn. by rewrite (exchanges_none st st); [intros ?%elem_of_nil|]. }
  rewrite rxt_auth_step.
  destruct (rxt_auth_payload self) as [[kind data]|].
  2:{ cbn. by rewrite (exchanges_none st st); [intros ?%elem_of_nil|]. }
  rewrite rxt_auth_inner_eq.
  pose proof (cached_catalog_frame lib w self st) as (Hs & Hh & _ & Hp).
  pose proof (cached_catalog_false lib w self st) as Hfalse.
  pose proof (cached_catalog_raises lib w self st) as Hraises.
  destruct (cached_catalog lib w self st) as [[[]|e] st'] eqn:Hcc;
    cbn [fst snd return_auth_handler] in *.
  { by rewrite (exchanges_none _ _ Hp); intros ?%elem_of_nil. }
  2:{ specialize (Hraises e eq_refl).
      destruct e as [?| | | | |s| | | |?|?]; cbn [fst snd]; try (by destruct Hraises);
        by rewrite (exchanges_none _ _ Hp); intros ?%elem_of_nil. }
  destruct (Hfalse st' eq_refl) as [Hst' Hno]. clear Hfalse.
  assert (environ st' = environ st ∧ RXT_SERVICE_CACHE st' ⊆ RXT_SERVICE_CACHE st)
    as [Henv Hsub].
  { destruct Hst' as [->| ->]; [done|]. split; [done|]. apply delete_subseteq. }
  destruct (_ && _); cbn [fst snd].
  { by rewrite (exchanges_none _ _ Hp); intros ?%elem_of_nil. }
  pose proof (exchange_posted w self data st') as Hposted. rewrite Hp, Hh in Hposted.
  pose proof (exchange_http_error w self data st') as Hhttp.
  assert ((d, h) = (data, rxt_headers st) → ¬ http_failure (post w d h) →
          ∃ self' st1,
            auth_payload self' = auth_payload self ∧
            hashed_auth_payload self' = hashed_auth_payload self ∧
            hashed_auth_user self' = hashed_auth_user self ∧
            h = rxt_headers st ∧ rxt_headers st1 = rxt_headers st ∧
            RXT_SESSION_CACHE st1 = RXT_SESSION_CACHE st ∧
            environ st1 = environ st ∧
            RXT_SERVICE_CACHE st1 ⊆ RXT_SERVICE_CACHE st ∧
            no_catalog self st1 ∧
            ∀ r st2, exchange w self data st' = (r, st2) →
              (∀ s, r ≠ Raise (HTTPError s)) ∧
              match r with
              | Ok true => (Ok mfa_pending, st2)
              | Ok false => return_auth_handler w self st2
              | Raise e => (Raise e, st2)
              end =
              match exchange w self' d st1 with
              | (Ok true, st2) => (Ok mfa_pending, st2)
              | (Ok false, st2) => return_auth_handler w self' st2
              | (Raise e, st2) => (Raise e, st2)
              end) as Hlast.
  { intros [= -> ->] Hnot. exists self, st'.
    do 9 (split; [done|]). intros r st2 Hex. split.
    - intros s ->. destruct (Hhttp _ _ Hex) as [_ Hf]. by rewrite Hh in Hf.
    - rewrite Hex. by destruct r as [[]|]. }
  destruct (exchange w self data st') as [r st2] eqn:Hex; cbn [snd] in Hposted.
  assert (exchanges st st2 = [(data, rxt_headers st)]) as Hone by by apply exchanges_one.
  assert (∀ (x : result AuthHandlerResponse * state), x.2 = st2 →
          (d, h) ∈ exchanges st x.2 → (d, h) = (data, rxt_headers st)) as Hin1.
  { intros x ->. rewrite Hone. by intros ?%list_elem_of_singleton. }
  destruct r as [mfa|e].
  - intros Hin Hnot.
    assert ((d, h) = (data, rxt_headers st)) as Heq.
    { eapply Hin1; [|exact Hin]. by destruct mfa. }
    destruct (Hlast Heq Hnot) as (self' & st1 & ? & ? & ? & ? & ? & ? & ? & ? & ? & Hres).
    exists self', st1. repeat split; try done. by destruct (Hres _ _ eq_refl) as [_ <-].
  - intros Hin Hnot.
    assert ((d, h) ∈ exchanges st st2 →
            match e with HTTPError _ => False | _ => True end) as Hnohttp.
    { rewrite Hone. intros Heq%list_elem_of_singleton.
      destruct (Hlast Heq Hnot) as (? & ? & _ & _ & _ & _ & _ & _ & _ & _ & _ & Hres).
      destruct (Hres _ _ eq_refl) as [Hne _].
      destruct e as [?| | | | |s| | | |?|?]; try done. by destruct (Hne s). }
    destruct e as [?| | | | |s| | | |?|?].
    6:{ destruct (String.eqb kind "apiKeyCredentials").
        2:{ by destruct (Hnohttp Hin). }
        destruct (passwordCredentials self) as [creds|]; [|by destruct (Hnohttp Hin)].
        destruct (Hhttp _ _ eq_refl) as [-> Hfail].
        pose proof (rxt_auth_posts n lib w (with_rxt_auth_payload self creds)
                      (logged data st')) as [_ Hp2].
        assert (posts_with (rxt_headers st) st (logged data st')) as Hp1.
        { eexists. split; [exact Hposted|]. by repeat constructor. }
        rewrite (exchanges_app _ _ _ _ _ Hp1 Hp2) in Hin.
        apply elem_of_app in Hin as [Hin|Hin]; [by destruct (Hnohttp Hin)|].
        destruct (IH _ _ Hin Hnot)
          as (self' & st1 & ? & ? & ? & ? & ? & ? & ? & ? & Hno1 & Hres).
        exists self', st1. cbn in *. repeat split; try congruence.
        - by etrans.
        - eapply no_catalog_ext; [| |exact Hno1]; done. }
    all: assert ((d, h) = (data, rxt_headers st)) as Heq by (by eapply Hin1; [|exact Hin]).
    all: destruct (Hlast Heq Hnot) as (self' & st1 & ? & ? & ? & ? & ? & ? & ? & ? & ? & Hres).
    all: exists self', st1; repeat split; try done.
    all: by destruct (Hres _ _ eq_refl) as [_ <-].
Qed.

Lemma rackspace_login_answered lib w payload st d h :
  (d, h) ∈ exchanges st (snd (rackspace_login lib w payload st)) →
  ¬ http_failure (post w d h) →
  ∃ rxt0 self st1,
    __init__ lib payload = Ok rxt0 ∧
    auth_payload self = payload ∧
    hashed_auth_payload self = hashed_auth_payload rxt0 ∧
    hashed_auth_user self = hashed_auth_user rxt0 ∧
    h = rxt_headers st1 ∧
    RXT_SESSION_CACHE st1 = RXT_SESSION_CACHE st ∧
    environ st1 = environ st ∧
    RXT_SERVICE_CACHE st1 ⊆ RXT_SERVICE_CACHE st ∧
    no_catalog self st1 ∧
    rackspace_login lib w payload st =
      match exchange w self d st1 with
      | (Ok true, st2) => (Ok mfa_pending, closed st2)
      | (Ok false, st2) => (fst (return_auth_handler w self st2), closed st2)
      | (Raise e, st2) => (Raise e, closed st2)
      end.
Proof.
  intros Hin Hnot.
  destruct (select_credentials lib payload st) as [[rxt|e] st0] eqn:Hsel.
  2:{ rewrite (rackspace_login_select_raise _ w _ _ _ _ Hsel) in Hin. cbn [snd] in Hin.
      rewrite (exchanges_none st st) in Hin by done. by apply elem_of_nil in Hin. }
  destruct (select_credentials_inv _ _ _ _ _ Hsel) as (rxt0 & Hinit & Henter & Hnone & Hpay).
  destruct (enter_inv _ _ _ _ Hnone Henter) as (Hap&Hhp&Hu&_&_&Hs&Hsv&_&Henv&Hposted&_).
  revert Hin. rewrite (rackspace_login_eq _ _ _ _ _ _ Hsel). cbn [fst snd].
  rewrite exchanges_closed, (exchanges_shift st st0) by done.
  intros Hin.
  destruct (rxt_auth_answered _ _ _ _ _ _ _ Hin Hnot)
    as (self & st1 & ? & ? & ? & ? & ? & ? & ? & ? & Hno & ->).
  exists rxt0, self, st1. repeat split; try congruence.
  - by rewrite <- Hsv.
  - eapply no_catalog_ext; [| |exact Hno]; done.
  - by destruct (exchange w self d st1) as [[[]|] st2].
Qed.

Lemma answered_not_failure resp :
  ¬ (400 ≤ status_code resp < 600) →
  mfa_challenge resp = None ∧ raise_for_status resp = Ok () ∧
  ¬ http_failure (Ok resp).
Proof.
  intros Hs. assert (mfa_challenge resp = None) as Hc.
  { unfold mfa_challenge. destruct (Z.eqb_spec (status_code resp) 401); [lia|done]. }
  split; [done|]. split; [|by intros [_ ?]].
  unfold raise_for_status.
  destruct (Z.leb_spec 400 (status_code resp)), (Z.ltb_spec (status_code resp) 600);
    cbn; try done; lia.
Qed.

(** X11.  When upstream answers a POST of the call with a catalogue the
    translator rejects for a missing key, the call ends with
    [Unauthorized], the request's environment is left as it was, and the
    catalogue is not cached: the service cache gains nothing. *)
Theorem rejected_catalog_not_cached lib w payload st d h resp sc k :
  (d, h) ∈ exchanges st (snd (rackspace_login lib w payload st)) →
  post w d h = Ok resp →
  ¬ (400 ≤ status_code resp < 600) →
  body resp = Some sc →
  federation_attributes sc = Raise (KeyError k) →
  fst (rackspace_login lib w payload st) = Raise (Unauthorized (CatalogParse k)) ∧
  environ (snd (rackspace_login lib w payload st)) = environ st ∧
  RXT_SERVICE_CACHE (snd (rackspace_login lib w payload st)) ⊆ RXT_SERVICE_CACHE st.
Proof.
  intros Hin Hpost Hstatus Hbody Hfa.
  destruct (answered_not_failure resp Hstatus) as (Hc & Hok & Hnot).
  rewrite <- Hpost in Hnot.
  destruct (rackspace_login_answered _ _ _ _ _ _ Hin Hnot)
    as (rxt0 & self & st1 & _ & _ & _ & _ & -> & _ & Henv & Hsub & _ & ->).
  rewrite exchange_eq. cbv zeta. rewrite Hpost, Hc, Hok. unfold response_json.
  rewrite Hbody.
  pose proof (parse_service_catalog_cases sc (logged d st1)) as H. rewrite Hfa in H.
  rewrite H. cbn [fst snd]. done.
Qed.

Lemma rejected_catalog_not_cached_witness :
  let upstream : json → gmap string string → result response :=
    λ _ _, Ok (mkResponse 200 None (Some (JObj [("access", JObj [])]))) in
  fst (rackspace_login Demo.lib (Demo.world 1600000000 upstream)
         Demo.alice_password Demo.fresh) = Raise (Unauthorized (CatalogParse "user")).
Proof.
  cbv zeta.
  eapply (rejected_catalog_not_cached Demo.lib
            (Demo.world 1600000000
               (λ _ _, Ok (mkResponse 200 None (Some (JObj [("access", JObj [])])))))
            Demo.alice_password Demo.fresh).
  - vm_compute. apply list_elem_of_here.
  - reflexivity.
  - cbn. lia.
  - reflexivity.
  - reflexivity.
Defined.

(** X12.  When upstream answers a POST of the call with a catalogue the
    translator accepts, the call caches that catalogue under the
    payload's fingerprint, leaves the session cache alone, and answers
    with what Keystone's mapped plugin makes of the payload and of the
    environment the translator wrote. *)
Theorem accepted_catalog_cached lib w payload st d h resp sc attrs :
  (d, h) ∈ exchanges st (snd (rackspace_login lib w payload st)) →
  post w d h = Ok resp →
  ¬ (400 ≤ status_code resp < 600) →
  body resp = Some sc →
  federation_attributes sc = Ok attrs →
  fst (rackspace_login lib w payload st) =
    auth_handler_response w payload (environ (snd (parse_service_catalog sc st))) ∧
  RXT_SERVICE_CACHE (snd (rackspace_login lib w payload st))
    !! sha224_hexdigest lib (json_dumps lib payload) = Some sc ∧
  RXT_SESSION_CACHE (snd (rackspace_login lib w payload st)) = RXT_SESSION_CACHE st.
Proof.
  intros Hin Hpost Hstatus Hbody Hfa.
  destruct (answered_not_failure resp Hstatus) as (Hc & Hok & Hnot).
  rewrite <- Hpost in Hnot.
  destruct (rackspace_login_answered _ _ _ _ _ _ Hin Hnot)
    as (rxt0 & self & st1 & Hinit & Hap & Hhp & _ & -> & Hs & Henv & _ & _ & ->).
  destruct (init_inv _ _ _ Hinit) as (name & fields & _ & _ & ->). cbn in Hhp.
  rewrite exchange_eq. cbv zeta. rewrite Hpost, Hc, Hok. unfold response_json.
  rewrite Hbody.
  pose proof (parse_service_catalog_cases sc (logged d st1)) as H. rewrite Hfa in H.
  pose proof (parse_service_catalog_same sc (logged d st1)) as (Hs2 & _).
  pose proof (parse_service_catalog_environ sc st (logged d st1) Henv) as He.
  destruct attrs as [[[[[u e] dm] tn] ti] o]. rewrite H in Hs2, He |- *.
  cbn [fst snd return_auth_handler] in *. split; [|split].
  - cbn. by rewrite Hap, He.
  - cbn. by rewrite Hhp, lookup_insert_eq.
  - cbn. by rewrite Hs2.
Qed.

Lemma accepted_catalog_cached_witness :
  RXT_SERVICE_CACHE
    (snd (rackspace_login Demo.lib (Demo.world 1600000000 Demo.succeeds)
            Demo.alice_api_key Demo.fresh))
    !! sha224_hexdigest Demo.lib (json_dumps Demo.lib Demo.alice_api_key) =
    Some Demo.good_catalog.
Proof.
  eapply (accepted_catalog_cached Demo.lib (Demo.world 1600000000 Demo.succeeds)
            Demo.alice_api_key Demo.fresh).
  - vm_compute. apply list_elem_of_here.
  - reflexivity.
  - cbn. lia.
  - reflexivity.
  - reflexivity.
Defined.

(** *** From the challenge to the passcode *)

(** X13.  The two steps of an MFA login compose.  After a call whose POST was
    answered with a 401 challenge, the next call for the same user name
    that brings a passcode is given passcode credentials, and
    [X-SessionId] is set to the identifier read from that challenge
    (when the challenge embeds one), whatever else the two payloads
    hold. *)
Theorem challenge_then_passcode lib w payload1 payload2 st d h resp header sid :
  (d, h) ∈ exchanges st (snd (rackspace_login lib w payload1 st)) →
  post w d h = Ok resp →
  status_code resp = 401 →
  www_authenticate resp = Some header →
  last (findall header) = Some sid →
  _username payload2 = _username payload1 →
  passcode_present payload2 = true →
  let st1 := snd (rackspace_login lib w payload1 st) in
  selected_kind (select_credentials lib payload2 st1) = Some "passcodeCredentials" ∧
  rxt_headers (snd (select_credentials lib payload2 st1)) !! "X-SessionId" = Some sid.
Proof.
  intros Hin Hpost H401 Hwww Hsid Hname Hpass. cbv zeta.
  assert (mfa_challenge resp = Some header) as Hc.
  { unfold mfa_challenge. by rewrite H401, Hwww. }
  assert (¬ http_failure (post w d h)) as Hnot.
  { rewrite Hpost. intros [Hnone _]. by rewrite Hc in Hnone. }
  destruct (rackspace_login_answered _ _ _ _ _ _ Hin Hnot)
    as (rxt0 & self & st1 & Hinit & _ & _ & Hu & -> & Hs & _ & _ & _ & ->).
  rewrite (exchange_challenge _ _ _ _ _ _ Hpost Hc). cbn [snd].
  destruct (init_inv _ _ _ Hinit) as (name & fields & _ & Hn1 & ->). cbn in Hu.
  assert (__init__ lib payload2 =
            Ok (mkRXT payload2 (sha224_hexdigest lib (json_dumps lib payload2))
                  (sha224_hexdigest lib name) None None)) as Hinit2.
  { unfold __init__. by rewrite Hname, Hn1. }
  rewrite (select_credentials_eq _ _ _ _ Hinit2), enter_eq by done. cbv zeta.
  assert (cached_session_id
            (mkRXT payload2 (sha224_hexdigest lib (json_dumps lib payload2))
               (sha224_hexdigest lib name) None None)
            (closed (header_cached self header (logged d st1))) = Some sid) as Hcs.
  { unfold cached_session_id. cbn. by rewrite Hu, lookup_insert_eq. }
  rewrite Hcs. cbn [auth_payload].
  unfold passcode_present in Hpass. unfold passcodeCredentials. cbn [auth_payload with_session_id].
  destruct (_passcode payload2) as [passcode|]; [|done]. rewrite Hpass.
  rewrite (cached_session_id_truthy _ _ _ Hcs). cbn.
  split; [done|]. by rewrite lookup_insert_eq.
Qed.

Lemma challenge_then_passcode_witness :
  let st1 := snd (rackspace_login Demo.lib (Demo.world 1600000000 Demo.challenges)
                    Demo.alice_password Demo.fresh) in
  selected_kind (select_credentials Demo.lib Demo.alice_passcode st1) =
    Some "passcodeCredentials" ∧
  rxt_headers (snd (select_credentials Demo.lib Demo.alice_passcode st1))
    !! "X-SessionId" = Some "abc123".
Proof.
  eapply (challenge_then_passcode Demo.lib (Demo.world 1600000000 Demo.challenges)
            Demo.alice_password Demo.alice_passcode Demo.fresh).
  - vm_compute. apply list_elem_of_here.
  - reflexivity.
  - reflexivity.
  - reflexivity.
  - reflexivity.
  - reflexivity.
  - reflexivity.
Defined.

(** *** An HTTP error without a fallback *)

(** X14.  With password or passcode credentials there is no second try: an
    HTTP error answer to the call's POST ends the call with
    [Unauthorized] naming the kind, and that POST is the only one. *)
Theorem http_error_without_fallback lib w payload st kind d h :
  selected_kind (select_credentials lib payload st) = Some kind →
  kind ≠ "apiKeyCredentials" →
  (d, h) ∈ exchanges st (snd (rackspace_login lib w payload st)) →
  http_failure (post w d h) →
  fst (rackspace_login lib w payload st) = Raise (Unauthorized (AuthFailed kind)) ∧
  exchanges st (snd (rackspace_login lib w payload st)) = [(d, h)].
Proof.
  unfold selected_kind. intros Hkind Hne.
  destruct (select_credentials lib payload st) as [[rxt|e] st0] eqn:Hsel; [|done].
  cbn [fst] in Hkind.
  destruct (rxt_auth_payload rxt) as [[kind' data]|] eqn:Hp; [|done].
  injection Hkind as ->. apply String.eqb_neq in Hne.
  destruct (select_credentials_inv _ _ _ _ _ Hsel) as (rxt0 & _ & Henter & Hnone & _).
  destruct (enter_inv _ _ _ _ Hnone Henter) as (_&_&_&_&_&_&_&_&_&Hposted&_).
  rewrite (rackspace_login_eq _ _ _ _ _ _ Hsel). cbn [fst snd].
  rewrite exchanges_closed, (exchanges_shift st st0) by done.
  rewrite (rxt_auth_no_retry 1 _ _ _ _ _ _ Hp Hne).
  rewrite (rxt_auth_last_state _ _ _ _ _ _ Hp Hne), (rxt_auth_last _ _ _ _ _ _ Hp Hne).
  intros Hin Hfail.
  destruct (attempt_http_failure _ _ _ _ _ _ _ _ Hin Hfail) as [Heq [s Hs]].
  pose proof (attempt_posted lib w rxt data kind st0) as [_ Hposts].
  destruct (_rxt_auth lib w rxt data kind st0) as [r st1]. cbn [fst snd] in *. subst r.
  split; [done|]. destruct Hposts as [Hp0|Hp1].
  - rewrite (exchanges_none _ _ Hp0) in Hin. by apply elem_of_nil in Hin.
  - by rewrite (exchanges_one _ _ _ Hp1), Heq.
Qed.

Lemma http_error_without_fallback_witness :
  fst (rackspace_login Demo.lib (Demo.world 1600000000 Demo.forbids)
         Demo.alice_password Demo.fresh) =
    Raise (Unauthorized (AuthFailed "passwordCredentials")).
Proof.
  eapply (http_error_without_fallback Demo.lib (Demo.world 1600000000 Demo.forbids)
            Demo.alice_password Demo.fresh "passwordCredentials").
  - reflexivity.
  - done.
  - vm_compute. apply list_elem_of_here.
  - split; [reflexivity|]. cbn. lia.
Defined.

(** *** A cached catalogue past its time *)

Lemma enter_evicted rxt0 self st :
  rxt_auth_payload rxt0 = None →
  __enter__ rxt0 (evicted self st) =
    (fst (__enter__ rxt0 st), evicted self (snd (__enter__ rxt0 st))).
Proof.
  intros Hnone. rewrite !enter_eq by done. cbv zeta.
  change (cached_session_id rxt0 (evicted self st)) with (cached_session_id rxt0 st).
  by repeat case_match.
Qed.

Lemma stale_evicted lib w self st sc :
  RXT_SERVICE_CACHE st !! hashed_auth_payload self = Some sc →
  stale lib w sc →
  cached_catalog lib w self st = (Ok false, evicted self st).
Proof.
  intros Hsc Hstale. rewrite cached_catalog_eq, Hsc.
  destruct Hstale as [[Htr [k Hk]]|(expires & t & Hexp & Hparse & Hnow)].
  - by rewrite Htr, Hk.
  - rewrite (catalog_expires_truthy _ _ Hexp), Hexp. cbn [token_expire]. rewrite Hparse.
    by apply Z.ltb_ge in Hnow as ->.
Qed.

(** X15.  A cached catalogue without [expires], or with an [expires] that does
    not lie ahead, is never served: the call deletes it and goes on
    exactly as it would in the process without that entry. *)
Theorem expired_catalog_evicted lib w payload st rxt st0 sc :
  select_credentials lib payload st = (Ok rxt, st0) →
  RXT_SERVICE_CACHE st !! sha224_hexdigest lib (json_dumps lib payload) = Some sc →
  stale lib w sc →
  rackspace_login lib w payload st =
    rackspace_login lib w payload
      (snd (service_cache_delete (sha224_hexdigest lib (json_dumps lib payload)) st)).
Proof.
  intros Hsel Hsc Hstale.
  destruct (select_credentials_inv _ _ _ _ _ Hsel) as (rxt0 & Hinit & Henter & Hnone & _).
  destruct (enter_inv _ _ _ _ Hnone Henter) as (_&Hhp&_&_&(kind&data&Hp)&_&Hsv&_).
  assert (hashed_auth_payload rxt = sha224_hexdigest lib (json_dumps lib payload)) as Hfp.
  { rewrite Hhp. by destruct (init_inv _ _ _ Hinit) as (?&?&_&_&->). }
  rewrite <- Hfp in *. fold (evicted rxt st).
  assert (select_credentials lib payload (evicted rxt st) = (Ok rxt, evicted rxt st0))
    as Hsel'.
  { by rewrite (select_credentials_eq _ _ _ _ Hinit), enter_evicted, Henter. }
  rewrite (rackspace_login_eq _ _ _ _ _ _ Hsel), (rackspace_login_eq _ _ _ _ _ _ Hsel').
  enough (rxt_auth 2 lib w rxt st0 = rxt_auth 2 lib w rxt (evicted rxt st0)) as -> by done.
  rewrite !(rxt_auth_step 1), Hp.
  enough (_rxt_auth lib w rxt data kind st0 = _rxt_auth lib w rxt data kind (evicted rxt st0))
    as -> by done.
  rewrite !rxt_auth_inner_eq.
  rewrite (stale_evicted lib w rxt st0 sc) by (by rewrite ?Hsv).
  rewrite (no_catalog_miss lib w rxt (evicted rxt st0)); [done|].
  unfold no_catalog. cbn. by rewrite lookup_delete_eq.
Qed.

Lemma expired_catalog_evicted_witness :
  let w := Demo.world 1600000000 Demo.succeeds in
  let st := Demo.cached (JStr "2020-01-01T00:00:00Z") in
  rackspace_login Demo.lib w Demo.alice_password st =
    rackspace_login Demo.lib w Demo.alice_password
      (snd (service_cache_delete (Demo.fingerprint Demo.alice_password) st)).
Proof.
  cbv zeta.
  eapply (expired_catalog_evicted Demo.lib (Demo.world 1600000000 Demo.succeeds)
            Demo.alice_password (Demo.cached (JStr "2020-01-01T00:00:00Z"))).
  - reflexivity.
  - vm_compute. reflexivity.
  - right. exists "2020-01-01T00:00:00Z", 1577836800.
    split; [reflexivity|]. split; [reflexivity|]. cbn. lia.
Defined.

(** ** Edge cases of the selector *)

(** X16.  A password that is no string (a number, [null], a list) makes the
    selector raise [TypeError], the one [re.match] raises, unless the
    passcode branch is taken; the process is left as it was. *)
Theorem non_string_password_type_error lib payload rxt st v :
  __init__ lib payload = Ok rxt →
  _password payload = Ok v →
  (∀ s, v ≠ JStr s) →
  passcode_present payload = false ∨ cached_session_id rxt st = None →
  select_credentials lib payload st = (Raise TypeError, st).
Proof.
  intros Hinit Hpw Hv Hbranch. rewrite (select_credentials_eq _ _ _ _ Hinit).
  apply init_inv in Hinit as (name & fields & Hu & Hn & ->).
  pose proof (passcode_total _ _ Hu) as Hp.
  rewrite enter_eq by reflexivity. cbv zeta.
  unfold passcode_present in Hbranch. cbn [auth_payload]. rewrite Hp in Hbranch |- *.
  assert (truthy (default JNull (dict_lookup "passcode" fields)) &&
          truthy_str (cached_session_id
                        (mkRXT payload (sha224_hexdigest lib (json_dumps lib payload))
                           (sha224_hexdigest lib name) None None) st) = false) as ->.
  { destruct Hbranch as [-> | ->]; [done|]. by rewrite andb_false_r. }
  unfold hash_types. cbn [hash_type_loop]. rewrite Hpw. cbn [rbind].
  destruct v as [| | |s| |]; try done. by destruct (Hv s).
Qed.

Lemma non_string_password_type_error_witness :
  select_credentials Demo.lib
    (Demo.user [("name", JStr "alice"); ("password", JNum 12345)]) Demo.challenged =
    (Raise TypeError, Demo.challenged).
Proof.
  eapply (non_string_password_type_error Demo.lib
            (Demo.user [("name", JStr "alice"); ("password", JNum 12345)]) _
            Demo.challenged (JNum 12345)).
  - reflexivity.
  - reflexivity.
  - done.
  - left. reflexivity.
Defined.

(** ** The two plugins *)


(** ** The passcode exchange *)

(** X18.  A call that brings a passcode while a session identifier is cached
    for the user, and finds no catalogue cached for its payload, makes
    exactly one POST: the body holds the passcode and nothing else of the
    payload, and the headers are the process's with [X-SessionId] set to
    the cached identifier. *)
Theorem passcode_exchange lib w payload st rxt sid passcode :
  __init__ lib payload = Ok rxt →
  _passcode payload = Ok passcode →
  truthy passcode = true →
  cached_session_id rxt st = Some sid →
  RXT_SERVICE_CACHE st !! hashed_auth_payload rxt = None →
  exchanges st (snd (rackspace_login lib w payload st)) =
    [(JObj [("auth", JObj [("RAX-AUTH:passcodeCredentials",
                            JObj [("passcode", passcode)])])],
      <["X-SessionId" := sid]> (rxt_headers st))].
Proof.
  intros Hinit Hpass Htr Hsid Hmiss.
  pose proof (select_credentials_eq _ _ _ st Hinit) as Hsel.
  destruct (init_inv _ _ _ Hinit) as (name & fields & _ & _ & Hrxt).
  assert (rxt_auth_payload rxt = None) as Hnone by by subst rxt.
  assert (auth_payload rxt = payload) as Hpay by by subst rxt.
  rewrite enter_eq in Hsel by done. cbv zeta in Hsel.
  unfold passcodeCredentials in Hsel. cbn [auth_payload with_session_id] in Hsel.
  rewrite Hpay, Hpass, Htr, Hsid, (cached_session_id_truthy _ _ _ Hsid) in Hsel.
  cbn [andb rbind default] in Hsel.
  rewrite (rackspace_login_eq _ _ _ _ _ _ Hsel). cbn [fst snd].
  rewrite exchanges_closed.
  set (self := with_rxt_auth_payload _ _) in *.
  set (st0 := header_set _ _ st) in *.
  rewrite (rxt_auth_no_retry 1 _ _ self st0 "passcodeCredentials" _ eq_refl eq_refl).
  rewrite (rxt_auth_last_state _ _ self st0 "passcodeCredentials" _ eq_refl eq_refl).
  rewrite rxt_auth_inner_eq.
  rewrite (no_catalog_miss lib w self st0).
  2:{ unfold no_catalog. subst self st0. cbn. by rewrite Hmiss. }
  cbn [String.eqb Ascii.eqb Bool.eqb]. rewrite andb_false_r.
  rewrite (exchanges_shift st st0) by done.
  apply exchanges_one. by rewrite exchange_posted.
Qed.

Lemma passcode_exchange_witness :
  exchanges Demo.challenged
    (snd (rackspace_login Demo.lib (Demo.world 1600000000 Demo.succeeds)
            Demo.alice_passcode Demo.challenged)) =
    [(JObj [("auth", JObj [("RAX-AUTH:passcodeCredentials",
                            JObj [("passcode", JStr "123456")])])],
      <["X-SessionId" := "abc123"]> ∅)].
Proof.
  eapply (passcode_exchange Demo.lib (Demo.world 1600000000 Demo.succeeds)
            Demo.alice_passcode Demo.challenged).
  - reflexivity.
  - reflexivity.
  - reflexivity.
  - reflexivity.
  - reflexivity.
Defined.
